(** * Mattermost desktop: per-server view lifecycle and navigation policy

    A shallow embedding of [src/main/MattermostView.js] (the load / retry
    state machine and the unread / mention detector of one server view) and
    of the [will-navigate] and [new-window] handlers installed by
    [handleAppWebContentsCreated] in the main-process entry file, followed
    by the properties of the specification that concern them. *)

From Stdlib Require Import ZArith Lia Ascii String.
From stdpp Require Import gmap strings list.

Local Open Scope string_scope.
Local Open Scope Z_scope.

(** ** JavaScript values used by the two files *)

Module Js.

(** The numbers [parseInt] can produce for a string of decimal digits:
    a finite integer value, [Infinity], or [NaN] (for [undefined]). *)
Inductive JsNumber :=
| Num (z : Z)
| Infinity
| NaN.

Definition is_digit (c : ascii) : bool :=
  let n := nat_of_ascii c in ((48 <=? n) && (n <=? 57))%nat.

Definition digit_value (c : ascii) : Z := Z.of_nat (nat_of_ascii c) - 48.

(** Decimal value of a string of digits, most significant first. *)
Fixpoint decimal_from (acc : Z) (ds : string) : Z :=
  match ds with
  | EmptyString => acc
  | String c r => decimal_from (10 * acc + digit_value c) r
  end.

Definition decimal (ds : string) : Z := decimal_from 0 ds.

(** A JavaScript number is an IEEE-754 binary64: an integer below [2^53]
    is held exactly, a larger one is rounded to 53 significant bits, ties
    to even, and what rounds to [2^1024] or more is [Infinity]. *)
Definition toDouble (z : Z) : JsNumber :=
  if z <? 2 ^ 53 then Num z
  else
    let e := Z.log2 z - 52 in
    let q := Z.shiftr z e in
    let r := z - Z.shiftl q e in
    let half := Z.shiftl 1 (e - 1) in
    let q' := if r <? half then q
              else if half <? r then q + 1
              else if Z.even q then q else q + 1 in
    let v := Z.shiftl q' e in
    if v <? 2 ^ 1024 then Num v else Infinity.

(** [parseInt(x, 10)] where [x] is [undefined] or a non-empty string of
    decimal digits, the only arguments the title parser passes. *)
Definition parseInt10 (x : option string) : JsNumber :=
  match x with
  | None => NaN
  | Some ds => toDouble (decimal ds)
  end.

(** [n || 0]: [0] and [NaN] are falsy. *)
Definition or_zero (n : JsNumber) : JsNumber :=
  match n with
  | NaN => Num 0
  | Num 0 => Num 0
  | _ => n
  end.

(** A favicon as the view handles it: [favicons[0]] of an array of
    strings ([undefined] for an empty array) or the [null] that
    [findUnreadState(null)] sends on the first load. *)
Inductive JsFavicon :=
| FavNull
| FavUndefined
| FavStr (s : string).

#[global] Instance JsFavicon_eq_dec : EqDecision JsFavicon.
Proof. solve_decision. Defined.

#[global] Instance JsFavicon_countable : Countable JsFavicon.
Proof.
  refine (inj_countable'
            (λ f, match f with
                  | FavNull => inl false
                  | FavUndefined => inl true
                  | FavStr s => inr s
                  end)
            (λ x, match x with
                  | inl false => FavNull
                  | inl true => FavUndefined
                  | inr s => FavStr s
                  end) _).
  by intros [].
Defined.

(** Truthiness of a favicon in [if (favicon)]: [null], [undefined] and
    the empty string are falsy. *)
Definition truthy (f : JsFavicon) : bool :=
  match f with
  | FavStr s => negb (String.eqb s "")
  | _ => false
  end.

(** [favicons[0]] *)
Definition first_favicon (favicons : list string) : JsFavicon :=
  match favicons with
  | [] => FavUndefined
  | s :: _ => FavStr s
  end.

End Js.

(** ** The title parser

    [titleParser] is a regular expression of two optional parts: a mention
    count in parentheses followed by a space (group 1, the digits being
    group 2), then an asterisk (group 3). *)

Module TitleParser.

(** Longest prefix of decimal digits and what follows it: the digit run of
    group 2 is greedy
    and is followed by a character that is no digit, so no shorter prefix
    can make the rest of the group match. *)
Fixpoint take_digits (s : string) : string * string :=
  match s with
  | String c r =>
      if Js.is_digit c
      then let '(ds, rest) := take_digits r in (String c ds, rest)
      else (EmptyString, s)
  | EmptyString => (EmptyString, EmptyString)
  end.

(** Group 1: an opening parenthesis, at least one digit,
    a closing parenthesis and a space. Returns group 2 and the rest. *)
Definition mentions_group (s : string) : option (string * string) :=
  match s with
  | String "("%char r =>
      match take_digits r with
      | (EmptyString, _) => None
      | (ds, String ")"%char (String " "%char rest)) => Some (ds, rest)
      | _ => None
      end
  | _ => None
  end.

(** Group 3: an asterisk at the head of [s]. *)
Definition asterisk_group (s : string) : option string :=
  match s with
  | String "*"%char _ => Some "*"
  | _ => None
  end.

(** The first element of [title.matchAll(titleParser)]. Both groups are
    optional, so the pattern always matches at index 0, possibly the empty
    string; the record holds capture groups 2 and 3 ([None] is
    [undefined]). *)
Record Match := { MENTIONS_GROUP : option string; ASTERISK_GROUP : option string }.

Definition first_match (title : string) : Match :=
  match mentions_group title with
  | Some (ds, rest) =>
      {| MENTIONS_GROUP := Some ds; ASTERISK_GROUP := asterisk_group rest |}
  | None =>
      {| MENTIONS_GROUP := None; ASTERISK_GROUP := asterisk_group title |}
  end.

(** The marker in the words of the specification: the title begins with
    an opening parenthesis, the digits [ds] of the count (at least one), a
    closing parenthesis and a space. *)
Fixpoint all_digits (s : string) : bool :=
  match s with
  | EmptyString => true
  | String c r => Js.is_digit c && all_digits r
  end.

Definition leading_marker (title ds : string) : Prop :=
  ds <> EmptyString /\ all_digits ds = true /\
  exists rest, title = String "("%char (ds +:+ String ")"%char (String " "%char rest)).

End TitleParser.

(** ** MattermostView.js *)

(** What [MattermostView.js] imports from modules that are outside the
    sources at hand: the two constants of [common/utils/constants] that
    drive the retries, and [urlUtils.parseUrl] of [common/utils/url], whose
    result is only handed to [webContents.loadURL] and printed, so that it
    is kept in its printed form. *)
Class Imports := {
  MAX_SERVER_RETRIES : Z;
  RELOAD_INTERVAL : Z;
  parseUrl : string -> string
}.

Module View.

Inductive Status := READY | LOADING | ERROR.

Record Server := { name : string; url : string }.

(** The messages [WindowManager.sendToRenderer] is called with. *)
Inductive RendererMsg :=
| LOAD_RETRY (serverName : string) (retryAt : Z) (err loadURL : string)
| LOAD_SUCCESS (serverName : string)
| LOAD_FAILED (serverName : string) (err loadURL : string).

(** What a handler does to its collaborators, in the order of the calls. *)
Inductive Effect :=
| sendToRenderer (msg : RendererMsg)
| webContents_loadURL (loadURL : string)
| webContents_send_IS_UNREAD (favicon : Js.JsFavicon) (serverName : string)
| appState_updateMentions (serverName : string) (mentions : Js.JsNumber)
                          (unreads : option bool)
| appState_updateUnreads (serverName : string) (result : bool)
| readyCallBack_called (serverName : string)
| window_removeBrowserView
| uncaught_TypeError.

(** The fields of a [MattermostView] that the modelled methods read or
    write. [usesAsteriskForUnreads] is [null] ([None]) or [true];
    [view_destroyed] records that [this.view.destroy()] ran ([this.view]
    itself is never reassigned). The methods of visibility, focus and
    bounds ([show], [hide], [setBounds], [focus], [openDevTools],
    [getWebContents], [isReady], [handleUpdateTarget]) write none of these
    fields but [isVisible], which nothing modelled reads, and are left
    out. *)
Record MattermostView := {
  server : option Server;
  window : bool;
  isVisible : bool;
  view_destroyed : bool;
  retryLoad : option nat;
  maxRetries : Z;
  status : Status;
  usesAsteriskForUnreads : option bool;
  faviconMemoize : gmap Js.JsFavicon bool;
  currentFavicon : Js.JsFavicon;
  readyCallBack : bool
}.

(** A pending [setTimeout(this.retry(loadURL), delay)]. *)
Record Timer := { timer_id : nat; delay : Z; due : Z; retry_url : string }.

(** The promise of a [webContents.loadURL] that has not settled yet, with
    the method that attached its [then] and [catch]. *)
Inductive Origin := from_load | from_retry.
Record Loading := { load_id : nat; origin : Origin; load_url : string }.

(** The view together with what surrounds it: the clock, the timers and
    promises of the event loop, whether the title, favicon and
    [UNREAD_RESULT] listeners have been attached, and the effects so far,
    the latest first. *)
Record World := {
  this : MattermostView;
  clock : Z;
  timers : list Timer;
  timer_count : nat;
  loadings : list Loading;
  load_count : nat;
  listening : bool;
  trace : list Effect
}.

Definition with_this (f : MattermostView -> MattermostView) (w : World) : World :=
  {| this := f (this w); clock := clock w; timers := timers w;
     timer_count := timer_count w; loadings := loadings w;
     load_count := load_count w; listening := listening w; trace := trace w |}.

Definition with_timers (ts : list Timer) (n : nat) (w : World) : World :=
  {| this := this w; clock := clock w; timers := ts; timer_count := n;
     loadings := loadings w; load_count := load_count w;
     listening := listening w; trace := trace w |}.

Definition with_loadings (ls : list Loading) (n : nat) (w : World) : World :=
  {| this := this w; clock := clock w; timers := timers w;
     timer_count := timer_count w; loadings := ls; load_count := n;
     listening := listening w; trace := trace w |}.

Definition with_clock (t : Z) (w : World) : World :=
  {| this := this w; clock := t; timers := timers w;
     timer_count := timer_count w; loadings := loadings w;
     load_count := load_count w; listening := listening w; trace := trace w |}.

Definition with_listening (b : bool) (w : World) : World :=
  {| this := this w; clock := clock w; timers := timers w;
     timer_count := timer_count w; loadings := loadings w;
     load_count := load_count w; listening := b; trace := trace w |}.

Definition with_trace (tr : list Effect) (w : World) : World :=
  {| this := this w; clock := clock w; timers := timers w;
     timer_count := timer_count w; loadings := loadings w;
     load_count := load_count w; listening := listening w; trace := tr |}.

Definition set_server (s : option Server) (v : MattermostView) : MattermostView :=
  {| server := s; window := window v; isVisible := isVisible v;
     view_destroyed := view_destroyed v; retryLoad := retryLoad v;
     maxRetries := maxRetries v; status := status v;
     usesAsteriskForUnreads := usesAsteriskForUnreads v;
     faviconMemoize := faviconMemoize v; currentFavicon := currentFavicon v;
     readyCallBack := readyCallBack v |}.

Definition set_window (b : bool) (v : MattermostView) : MattermostView :=
  {| server := server v; window := b; isVisible := isVisible v;
     view_destroyed := view_destroyed v; retryLoad := retryLoad v;
     maxRetries := maxRetries v; status := status v;
     usesAsteriskForUnreads := usesAsteriskForUnreads v;
     faviconMemoize := faviconMemoize v; currentFavicon := currentFavicon v;
     readyCallBack := readyCallBack v |}.

Definition set_isVisible (b : bool) (v : MattermostView) : MattermostView :=
  {| server := server v; window := window v; isVisible := b;
     view_destroyed := view_destroyed v; retryLoad := retryLoad v;
     maxRetries := maxRetries v; status := status v;
     usesAsteriskForUnreads := usesAsteriskForUnreads v;
     faviconMemoize := faviconMemoize v; currentFavicon := currentFavicon v;
     readyCallBack := readyCallBack v |}.

Definition set_view_destroyed (b : bool) (v : MattermostView) : MattermostView :=
  {| server := server v; window := window v; isVisible := isVisible v;
     view_destroyed := b; retryLoad := retryLoad v;
     maxRetries := maxRetries v; status := status v;
     usesAsteriskForUnreads := usesAsteriskForUnreads v;
     faviconMemoize := faviconMemoize v; currentFavicon := currentFavicon v;
     readyCallBack := readyCallBack v |}.

Definition set_retryLoad (t : option nat) (v : MattermostView) : MattermostView :=
  {| server := server v; window := window v; isVisible := isVisible v;
     view_destroyed := view_destroyed v; retryLoad := t;
     maxRetries := maxRetries v; status := status v;
     usesAsteriskForUnreads := usesAsteriskForUnreads v;
     faviconMemoize := faviconMemoize v; currentFavicon := currentFavicon v;
     readyCallBack := readyCallBack v |}.

Definition set_maxRetries (n : Z) (v : MattermostView) : MattermostView :=
  {| server := server v; window := window v; isVisible := isVisible v;
     view_destroyed := view_destroyed v; retryLoad := retryLoad v;
     maxRetries := n; status := status v;
     usesAsteriskForUnreads := usesAsteriskForUnreads v;
     faviconMemoize := faviconMemoize v; currentFavicon := currentFavicon v;
     readyCallBack := readyCallBack v |}.

Definition set_status (s : Status) (v : MattermostView) : MattermostView :=
  {| server := server v; window := window v; isVisible := isVisible v;
     view_destroyed := view_destroyed v; retryLoad := retryLoad v;
     maxRetries := maxRetries v; status := s;
     usesAsteriskForUnreads := usesAsteriskForUnreads v;
     faviconMemoize := faviconMemoize v; currentFavicon := currentFavicon v;
     readyCallBack := readyCallBack v |}.

Definition set_usesAsteriskForUnreads (u : option bool) (v : MattermostView)
  : MattermostView :=
  {| server := server v; window := window v; isVisible := isVisible v;
     view_destroyed := view_destroyed v; retryLoad := retryLoad v;
     maxRetries := maxRetries v; status := status v;
     usesAsteriskForUnreads := u;
     faviconMemoize := faviconMemoize v; currentFavicon := currentFavicon v;
     readyCallBack := readyCallBack v |}.

Definition set_faviconMemoize (m : gmap Js.JsFavicon bool) (v : MattermostView)
  : MattermostView :=
  {| server := server v; window := window v; isVisible := isVisible v;
     view_destroyed := view_destroyed v; retryLoad := retryLoad v;
     maxRetries := maxRetries v; status := status v;
     usesAsteriskForUnreads := usesAsteriskForUnreads v;
     faviconMemoize := m; currentFavicon := currentFavicon v;
     readyCallBack := readyCallBack v |}.

Definition set_currentFavicon (f : Js.JsFavicon) (v : MattermostView)
  : MattermostView :=
  {| server := server v; window := window v; isVisible := isVisible v;
     view_destroyed := view_destroyed v; retryLoad := retryLoad v;
     maxRetries := maxRetries v; status := status v;
     usesAsteriskForUnreads := usesAsteriskForUnreads v;
     faviconMemoize := faviconMemoize v; currentFavicon := f;
     readyCallBack := readyCallBack v |}.

Definition set_readyCallBack (b : bool) (v : MattermostView) : MattermostView :=
  {| server := server v; window := window v; isVisible := isVisible v;
     view_destroyed := view_destroyed v; retryLoad := retryLoad v;
     maxRetries := maxRetries v; status := status v;
     usesAsteriskForUnreads := usesAsteriskForUnreads v;
     faviconMemoize := faviconMemoize v; currentFavicon := currentFavicon v;
     readyCallBack := b |}.

(** *** Handlers as state transformers that may throw

    A handler runs on the world and either returns a value or throws (the
    only exception the modelled code raises by itself is the [TypeError]
    of a property read on [null]); what it changed before throwing
    stays changed. *)
Definition Handler (A : Type) : Type := World -> option A * World.

#[global] Instance Handler_ret : MRet Handler := λ A a w, (Some a, w).

#[global] Instance Handler_bind : MBind Handler :=
  λ A B f m w, match m w with
               | (Some a, w') => f a w'
               | (None, w') => (None, w')
               end.

Definition throw {A : Type} : Handler A := λ w, (None, w).

Definition read {A : Type} (f : MattermostView -> A) : Handler A :=
  λ w, (Some (f (this w)), w).

Definition write (f : MattermostView -> MattermostView) : Handler unit :=
  λ w, (Some tt, with_this f w).

Definition effect (e : Effect) : Handler unit :=
  λ w, (Some tt, with_trace (e :: trace w) w).

Definition skip : Handler unit := mret tt.

(** [this.server.<field>]: a [TypeError] once [destroy] has set
    [this.server] to [null]. *)
Definition this_server : Handler Server :=
  s ← read server; match s with Some srv => mret srv | None => throw end.

(** [Date.now()] *)
Definition Date_now : Handler Z := λ w, (Some (clock w), w).

(** [setTimeout(this.retry(loadURL), ms)]: returns the new timer. *)
Definition setTimeout (loadURL : string) (ms : Z) : Handler nat :=
  λ w, let id := timer_count w in
       (Some id,
        with_timers (timers w ++ [{| timer_id := id; delay := ms;
                                     due := clock w + ms;
                                     retry_url := loadURL |}])
                    (S id) w).

(** [clearTimeout(handle)]; [clearTimeout(null)] does nothing. *)
Definition clearTimeout (handle : option nat) : Handler unit :=
  λ w, match handle with
       | Some id =>
           (Some tt,
            with_timers (filter (λ t, timer_id t ≠ id) (timers w))
                        (timer_count w) w)
       | None => (Some tt, w)
       end.

(** The promise returned by [webContents.loadURL], waiting to settle. *)
Definition pending (o : Origin) (loadURL : string) : Handler unit :=
  λ w, (Some tt,
        with_loadings (loadings w ++ [{| load_id := load_count w; origin := o;
                                         load_url := loadURL |}])
                      (S (load_count w)) w).

(** [this.view.webContents.loadURL(loadURL, {userAgent})] followed by
    [.then(...).catch(...)]: the request is made and its promise waits. A
    destroyed [BrowserView] has no contents left to load into: the call
    throws. *)
Definition webContents_load (o : Origin) (loadURL : string) : Handler unit :=
  d ← read view_destroyed;
  if d : bool then throw
  else effect (webContents_loadURL loadURL);; pending o loadURL.

(** [m] with [h] as its [catch]: [h] runs on what [m] left when [m]
    threw. *)
Definition try_catch {A : Type} (m h : Handler A) : Handler A :=
  λ w, match m w with
       | (None, w') => h w'
       | r => r
       end.

(** The text of the [TypeError] raised by [this.server.name] once
    [this.server] is [null]. *)
Definition TypeError_text : string :=
  "TypeError: Cannot read property 'name' of null".

(** A handler keeps the asterisk flag when, run on a world whose flag is
    [true], it leaves a world whose flag is [true], whether it returns or
    throws. *)
Definition keeps {A : Type} (h : Handler A) : Prop :=
  forall w, usesAsteriskForUnreads (this w) = Some true ->
            usesAsteriskForUnreads (this (h w).2) = Some true.

(** *** The methods *)

Definition flag_set (u : option bool) : bool :=
  match u with Some true => true | _ => false end.

Section Methods.
Context `{Imports}.

(** The constructor: [new MattermostView(server, win, options)]. *)
Definition new_view (srv : Server) : MattermostView :=
  {| server := Some srv; window := true; isVisible := false;
     view_destroyed := false; retryLoad := None;
     maxRetries := MAX_SERVER_RETRIES; status := LOADING;
     usesAsteriskForUnreads := None; faviconMemoize := ∅;
     currentFavicon := Js.FavNull; readyCallBack := false |}.

Definition setReadyCallback : Handler unit :=
  write (set_readyCallBack true).

Definition load (someURL : option string) : Handler unit :=
  write (set_retryLoad None);;
  loadURL ← match someURL with
            | None => srv ← this_server; mret (url srv)
            | Some u => mret (parseUrl u)
            end;
  _ ← this_server;
  webContents_load from_load loadURL.

(** The closure [retry(loadURL)] that the timer calls. The test
    [if (!this.view) return] never returns: [this.view] is assigned once,
    in the constructor. *)
Definition retry (loadURL : string) : Handler unit :=
  webContents_load from_retry loadURL.

Definition loadRetry (loadURL err : string) : Handler unit :=
  id ← setTimeout loadURL RELOAD_INTERVAL;
  write (set_retryLoad (Some id));;
  srv ← this_server;
  t ← Date_now;
  effect (sendToRenderer
            (LOAD_RETRY (name srv) (t + RELOAD_INTERVAL) err loadURL)).

(** The [catch] of the promise made in [retry]: [maxRetries-- > 0]
    compares the old value and decrements in both branches. *)
Definition retry_catch (loadURL err : string) : Handler unit :=
  n ← read maxRetries;
  write (set_maxRetries (n - 1));;
  if 0 <? n then loadRetry loadURL err
  else
    srv ← this_server;
    effect (sendToRenderer (LOAD_FAILED (name srv) err loadURL));;
    write (set_status ERROR).

Definition findUnreadState (favicon : Js.JsFavicon) : Handler unit :=
  srv ← this_server;
  effect (webContents_send_IS_UNREAD favicon (name srv)).

Definition handleTitleUpdate (title : string) : Handler unit :=
  let results := TitleParser.first_match title in
  let hasAsterisk := TitleParser.ASTERISK_GROUP results in
  (if hasAsterisk is Some _
   then write (set_usesAsteriskForUnreads (Some true)) else skip);;
  uses ← read usesAsteriskForUnreads;
  let unreads := if flag_set uses
                 then Some (if hasAsterisk is Some _ then true else false)
                 else None in
  let mentions :=
    Js.or_zero (Js.parseInt10 (TitleParser.MENTIONS_GROUP results)) in
  srv ← this_server;
  effect (appState_updateMentions (name srv) mentions unreads).

Definition handleFaviconUpdate (favicons : list string) : Handler unit :=
  uses ← read usesAsteriskForUnreads;
  if flag_set uses then skip
  else
    let favicon := Js.first_favicon favicons in
    write (set_currentFavicon favicon);;
    memo ← read faviconMemoize;
    match memo !! favicon with
    | Some result =>
        srv ← this_server;
        effect (appState_updateUnreads (name srv) result)
    | None => findUnreadState favicon
    end.

Definition handleFaviconIsUnread (favicon : Js.JsFavicon) (serverName : string)
           (result : bool) : Handler unit :=
  s ← read server;
  match s with
  | Some srv =>
      if String.eqb serverName (name srv) then
        (if Js.truthy favicon
         then memo ← read faviconMemoize;
              write (set_faviconMemoize (<[favicon := result]> memo))
         else skip);;
        current ← read currentFavicon;
        if bool_decide (favicon = Js.FavNull) || bool_decide (favicon = current)
        then effect (appState_updateUnreads serverName result)
        else skip
      else skip
  | None => skip
  end.

(** The listeners that [loadSuccess] attaches the first time. *)
Definition attach_listeners : Handler unit :=
  λ w, (Some tt, with_listening true w).

(** The closure [loadSuccess(loadURL)]; [title] is what
    [this.view.webContents.getTitle()] returns when it runs. *)
Definition loadSuccess (loadURL title : string) : Handler unit :=
  srv ← this_server;
  effect (sendToRenderer (LOAD_SUCCESS (name srv)));;
  write (set_maxRetries MAX_SERVER_RETRIES);;
  st ← read status;
  (if st is LOADING
   then attach_listeners;; handleTitleUpdate title;; findUnreadState Js.FavNull
   else skip);;
  write (set_status READY);;
  cb ← read readyCallBack;
  if cb : bool
  then srv' ← this_server; effect (readyCallBack_called (name srv'))
  else skip.

Definition destroy : Handler unit :=
  handle ← read retryLoad;
  (if handle is Some _ then clearTimeout handle else skip);;
  win ← read window;
  (if win : bool then effect window_removeBrowserView else skip);;
  write (set_view_destroyed true);;
  write (set_window false);;
  write (set_server None);;
  write (set_isVisible false);;
  handle' ← read retryLoad;
  clearTimeout handle'.

(** The [catch] attached to a request: that of [load] retries, that of
    [retry] counts. *)
Definition on_rejected (o : Origin) (loadURL err : string) : Handler unit :=
  match o with
  | from_load => loadRetry loadURL err
  | from_retry => retry_catch loadURL err
  end.

(** [loading.then(this.loadSuccess(loadURL)).catch(...)] when the
    request succeeds: an exception thrown by [loadSuccess] is handed to
    the [catch] of the same chain. *)
Definition on_resolved (o : Origin) (loadURL title : string) : Handler unit :=
  try_catch (loadSuccess loadURL title) (on_rejected o loadURL TypeError_text).

(** *** The event loop around the view *)

Inductive Event :=
| Call_load (someURL : option string)
| Call_setReadyCallback
| Call_destroy
| Elapse (ms : Z)
| TimerFires (id : nat)
| LoadResolves (id : nat) (title : string)
| LoadRejects (id : nat) (err : string)
| PageTitleUpdated (title : string)
| PageFaviconUpdated (favicons : list string)
| UnreadResult (favicon : Js.JsFavicon) (serverName : string) (result : bool).

(** Runs a handler to its end; an exception that leaves it is recorded. *)
Definition run_handler (h : Handler unit) (w : World) : World :=
  match h w with
  | (Some _, w') => w'
  | (None, w') => with_trace (uncaught_TypeError :: trace w') w'
  end.

Definition find_timer (id : nat) (w : World) : option Timer :=
  List.find (λ t, Nat.eqb (timer_id t) id) (timers w).

Definition drop_timer (id : nat) (w : World) : World :=
  with_timers (filter (λ t, timer_id t ≠ id) (timers w)) (timer_count w) w.

Definition find_loading (id : nat) (w : World) : option Loading :=
  List.find (λ l, Nat.eqb (load_id l) id) (loadings w).

Definition drop_loading (id : nat) (w : World) : World :=
  with_loadings (filter (λ l, load_id l ≠ id) (loadings w)) (load_count w) w.

(** One turn of the event loop. A timer fires only when it is pending and
    due, a promise settles only while it is pending, and the page and
    [UNREAD_RESULT] listeners are called only once attached; any other
    event leaves the world as it is. *)
Definition step (w : World) (ev : Event) : World :=
  match ev with
  | Call_load someURL => run_handler (load someURL) w
  | Call_setReadyCallback => run_handler setReadyCallback w
  | Call_destroy => run_handler destroy w
  | Elapse ms => with_clock (clock w + Z.max 0 ms) w
  | TimerFires id =>
      match find_timer id w with
      | Some t =>
          if due t <=? clock w
          then run_handler (retry (retry_url t)) (drop_timer id w)
          else w
      | None => w
      end
  | LoadResolves id title =>
      match find_loading id w with
      | Some l =>
          run_handler (on_resolved (origin l) (load_url l) title)
                      (drop_loading id w)
      | None => w
      end
  | LoadRejects id err =>
      match find_loading id w with
      | Some l =>
          run_handler (on_rejected (origin l) (load_url l) err)
                      (drop_loading id w)
      | None => w
      end
  | PageTitleUpdated title =>
      if listening w then run_handler (handleTitleUpdate title) w else w
  | PageFaviconUpdated favicons =>
      if listening w then run_handler (handleFaviconUpdate favicons) w else w
  | UnreadResult favicon serverName result =>
      if listening w
      then run_handler (handleFaviconIsUnread favicon serverName result) w
      else w
  end.

Definition run (w : World) (evs : list Event) : World := foldl step w evs.

(** The world right after the constructor. *)
Definition boot (srv : Server) : World :=
  {| this := new_view srv; clock := 0; timers := []; timer_count := 0;
     loadings := []; load_count := 0; listening := false; trace := [] |}.

(** [load(someURL)] whose request is rejected with [err]. *)
Definition failed_load (someURL : option string) (err : string) (w : World)
  : World :=
  run w [Call_load someURL; LoadRejects (load_count w) err].

(** The interval passes, the retry that [retryLoad] holds fires, and
    the request it makes is rejected with [err]. *)
Definition failed_retry (err : string) (w : World) : World :=
  match retryLoad (this w) with
  | Some id =>
      run w [Elapse RELOAD_INTERVAL; TimerFires id;
             LoadRejects (load_count w) err]
  | None => w
  end.

(** The view waits for its one scheduled retry: nothing is loading, the
    timer that [retryLoad] holds is the only one and is due once the
    interval has passed. *)
Definition armed (srv : Server) (k : Z) (w : World) : Prop :=
  server (this w) = Some srv /\ view_destroyed (this w) = false /\
  loadings w = [] /\ maxRetries (this w) = k /\
  exists t, timers w = [t] /\ retryLoad (this w) = Some (timer_id t) /\
            due t <= clock w + Z.max 0 RELOAD_INTERVAL.

(** *** What the properties count *)

Definition is_LOAD_FAILED (e : Effect) : bool :=
  match e with sendToRenderer (LOAD_FAILED _ _ _) => true | _ => false end.

Definition is_probe (e : Effect) : bool :=
  match e with webContents_send_IS_UNREAD _ _ => true | _ => false end.

Definition count (p : Effect -> bool) (w : World) : nat :=
  length (List.filter p (trace w)).

End Methods.

End View.

(** ** The navigation handlers of [handleAppWebContentsCreated] *)

(** A parsed URL: the handlers read [protocol], [pathname] and [path]; the
    classifier has the whole of it, [href]. *)
Record ParsedURL := {
  href : string;
  protocol : string;
  pathname : string;
  path : option string
}.

(** What the handlers call in modules that are outside the sources at hand:
    [common/utils/url] (the classifier, which receives the result of
    [parseURL] as it is, [null] included), [Utils.runMode()] with the two
    mode constants, and [process.platform]. [parseURL] answers [None] for a
    string it cannot parse. *)
Class Classifier := {
  parseURL : string -> option ParsedURL;
  isValidURI : string -> bool;
  getServer : option ParsedURL -> list View.Server -> option View.Server;
  isTeamUrl : string -> option ParsedURL -> bool -> bool;
  isAdminUrl : string -> option ParsedURL -> bool;
  isPluginUrl : string -> option ParsedURL -> bool;
  isManagedResource : string -> option ParsedURL -> bool;
  isCustomLoginURL : option ParsedURL -> option View.Server -> list View.Server -> bool;
  isTrustedURL : option ParsedURL -> list View.Server -> bool;
  runMode : string;
  DEVELOPMENT : string;
  PRODUCTION : string;
  platform : string
}.

Module Nav.

(** [popupUserAgent[process.platform]] *)
Definition nixUA : string :=
  "Mozilla/5.0 (X11; Linux x86_64) AppleWebKit/537.36 (KHTML, like Gecko) Chrome Safari/537.36".

Definition popupUserAgent (platform : string) : option string :=
  if String.eqb platform "darwin" then
    Some "Mozilla/5.0 (Macintosh; Intel Mac OS X 10_14_6) AppleWebKit/537.36 (KHTML, like Gecko) Chrome Safari/537.36"
  else if String.eqb platform "win32" then
    Some "Mozilla/5.0 (Windows NT 10.0; Win64; x64) AppleWebKit/537.36 (KHTML, like Gecko) Chrome Safari/537.36"
  else if String.eqb platform "aix" || String.eqb platform "freebsd"
          || String.eqb platform "linux" || String.eqb platform "openbsd"
          || String.eqb platform "sunos" then Some nixUA
  else None.

(** *** The two path patterns *)

Fixpoint strip_prefix (p s : string) : option string :=
  match p, s with
  | EmptyString, _ => Some s
  | String a p', String b s' =>
      if Ascii.eqb a b then strip_prefix p' s' else None
  | String _ _, EmptyString => None
  end.

Definition starts_with (p s : string) : bool :=
  match strip_prefix p s with Some _ => true | None => false end.

(** One repetition of the starred group of the download pattern:
    [/api/v3/public] or [/api/v4/public]. *)
Definition strip_api_public (s : string) : option string :=
  match strip_prefix "/api/v" s with
  | Some (String c r) =>
      if Ascii.eqb c "3" || Ascii.eqb c "4" then strip_prefix "/public" r else None
  | _ => None
  end.

(** The starred group, as often as it matches. A repetition starts with
    [/api] and the pattern goes on with [/files/], so giving a repetition
    back never helps the match. *)
Fixpoint strip_api_publics (fuel : nat) (s : string) : string :=
  match fuel with
  | O => s
  | S n =>
      match strip_api_public s with
      | Some r => strip_api_publics n r
      | None => s
      end
  end.

(** The public download pattern: from the start of the path, any number
    of [/api/v3/public] or [/api/v4/public], then [/files/]. *)
Definition matches_public_files (pathname : string) : bool :=
  starts_with "/files/" (strip_api_publics (String.length pathname) pathname).

(** The help pattern: the path starts with [/help/]. *)
Definition matches_help (pathname : string) : bool :=
  starts_with "/help/" pathname.

(** *** Windows and state *)

(** A [BrowserWindow] made for the popup. [closed] is what the handler
    reads as [popupWindow.closed]: false as long as the window is open.
    [once_ready] and [once_closed] are the two listeners attached with
    [once]. *)
Record BrowserWindow := {
  closed : bool;
  getURL : string;
  shown : bool;
  spellcheck : bool;
  once_ready : bool;
  once_closed : bool
}.

Inductive Effect :=
| preventDefault
| openExternal (url : string)
| protocol_dialog (protocol url : string)
| log_info (msg : string)
| new_BrowserWindow (id : nat)
| popup_show (id : nat)
| popup_loadURL (id : nat) (url : string) (userAgent : option string).

(** The module-level variables the handlers use, the windows constructed
    so far (a window is known by its position in the list) and the
    effects so far, the latest first. *)
Record State := {
  popupWindow : option nat;
  windows : list BrowserWindow;
  customLogins : gmap nat bool;
  scheme : option string;
  teams : list View.Server;
  useSpellChecker : option bool;
  effects : list Effect
}.

Definition emit (e : Effect) (st : State) : State :=
  {| popupWindow := popupWindow st; windows := windows st;
     customLogins := customLogins st; scheme := scheme st; teams := teams st;
     useSpellChecker := useSpellChecker st; effects := e :: effects st |}.

Definition set_popupWindow (p : option nat) (st : State) : State :=
  {| popupWindow := p; windows := windows st;
     customLogins := customLogins st; scheme := scheme st; teams := teams st;
     useSpellChecker := useSpellChecker st; effects := effects st |}.

Definition set_windows (ws : list BrowserWindow) (st : State) : State :=
  {| popupWindow := popupWindow st; windows := ws;
     customLogins := customLogins st; scheme := scheme st; teams := teams st;
     useSpellChecker := useSpellChecker st; effects := effects st |}.

Definition set_customLogins (m : gmap nat bool) (st : State) : State :=
  {| popupWindow := popupWindow st; windows := windows st;
     customLogins := m; scheme := scheme st; teams := teams st;
     useSpellChecker := useSpellChecker st; effects := effects st |}.

Definition set_closed (b : bool) (win : BrowserWindow) : BrowserWindow :=
  {| closed := b; getURL := getURL win; shown := shown win;
     spellcheck := spellcheck win; once_ready := once_ready win;
     once_closed := once_closed win |}.

Definition set_getURL (u : string) (win : BrowserWindow) : BrowserWindow :=
  {| closed := closed win; getURL := u; shown := shown win;
     spellcheck := spellcheck win; once_ready := once_ready win;
     once_closed := once_closed win |}.

Definition set_shown (b : bool) (win : BrowserWindow) : BrowserWindow :=
  {| closed := closed win; getURL := getURL win; shown := b;
     spellcheck := spellcheck win; once_ready := once_ready win;
     once_closed := once_closed win |}.

Definition set_once_ready (b : bool) (win : BrowserWindow) : BrowserWindow :=
  {| closed := closed win; getURL := getURL win; shown := shown win;
     spellcheck := spellcheck win; once_ready := b;
     once_closed := once_closed win |}.

Definition set_once_closed (b : bool) (win : BrowserWindow) : BrowserWindow :=
  {| closed := closed win; getURL := getURL win; shown := shown win;
     spellcheck := spellcheck win; once_ready := once_ready win;
     once_closed := b |}.

Definition update_window (id : nat) (f : BrowserWindow -> BrowserWindow)
           (st : State) : State :=
  set_windows (alter f id (windows st)) st.

(** How a handler ends: it returns, or an exception leaves it. *)
Inductive Outcome :=
| Returned (st : State)
| Threw (st : State).

Definition state_of (o : Outcome) : State :=
  match o with Returned st | Threw st => st end.

(** The [WebContents] an event comes from: its [id] and, when it belongs
    to one of the popup windows, that window
    ([BrowserWindow.fromWebContents]). *)
Record Sender := { id : nat; owner : option nat }.

Section Handlers.
Context `{Classifier}.

(** The open popup the variable [popupWindow] refers to, if any:
    [popupWindow && !popupWindow.closed]. *)
Definition open_popup (st : State) : option (nat * BrowserWindow) :=
  match popupWindow st with
  | Some i =>
      match windows st !! i with
      | Some win => if closed win then None else Some (i, win)
      | None => None
      end
  | None => None
  end.

Definition isTrustedPopupWindow (sender : Sender) (st : State) : bool :=
  match popupWindow st with
  | None => false
  | Some i => bool_decide (owner sender = Some i)
  end.

(** [`${scheme}:`]; [scheme] stays [null] in development mode. *)
Definition scheme_protocol (st : State) : string :=
  match scheme st with
  | Some s => s +:+ ":"
  | None => "null:"
  end.

(** [handleAppWebContentsCreated] itself: the custom login entry of the
    new contents. *)
Definition handleAppWebContentsCreated (contents : nat) (st : State) : State :=
  set_customLogins (<[contents := false]> (customLogins st)) st.

Definition on_will_navigate (sender : Sender) (url : string) (st : State)
  : Outcome :=
  let parsedURL := parseURL url in
  let server := getServer parsedURL (teams st) in
  if match server with
     | Some srv => isTeamUrl (View.url srv) parsedURL false
                   || isAdminUrl (View.url srv) parsedURL
                   || isTrustedPopupWindow sender st
     | None => false
     end
  then Returned st
  else if isCustomLoginURL parsedURL server (teams st) then Returned st
  else
    match parsedURL with
    | None => Threw st
    | Some p =>
        if String.eqb (protocol p) "mailto:" then Returned st
        else
          match customLogins st !! id sender with
          | None => Threw st
          | Some inProgress =>
              if inProgress : bool then Returned st
              else if (String.eqb runMode DEVELOPMENT || String.eqb runMode PRODUCTION)
                      && (bool_decide (path p = Some "renderer/index.html")
                          || bool_decide (path p = Some "renderer/settings.html"))
              then Returned (emit (log_info "loading settings page") st)
              else Returned (emit preventDefault
                               (emit (log_info ("Prevented desktop from navigating to: " +:+ url)) st))
          end
    end.

Definition on_did_start_navigation (sender : Sender) (url : string) (st : State)
  : Outcome :=
  let parsedURL := parseURL url in
  let server := getServer parsedURL (teams st) in
  if negb (isTrustedURL parsedURL (teams st)) then Returned st
  else if isCustomLoginURL parsedURL server (teams st)
  then match customLogins st !! id sender with
       | None => Threw st
       | Some _ => Returned (set_customLogins (<[id sender := true]> (customLogins st)) st)
       end
  else match customLogins st !! id sender with
       | None => Threw st
       | Some true => Returned (set_customLogins (<[id sender := false]> (customLogins st)) st)
       | Some false => Returned st
       end.

(** [new BrowserWindow({... show: false ...})] with its two [once]
    listeners, assigned to [popupWindow]. *)
Definition create_popup (st : State) : State :=
  let i := length (windows st) in
  let win := {| closed := false; getURL := ""; shown := false;
                spellcheck := match useSpellChecker st with
                              | None => true
                              | Some b => b
                              end;
                once_ready := true; once_closed := true |} in
  emit (new_BrowserWindow i)
       (set_popupWindow (Some i) (set_windows (windows st ++ [win]) st)).

(** [popupWindow.loadURL(url, options)] *)
Definition popup_load (url : string) (userAgent : option string) (st : State)
  : Outcome :=
  match popupWindow st with
  | Some i =>
      Returned (emit (popup_loadURL i url userAgent)
                     (update_window i (set_getURL url) st))
  | None => Threw st
  end.

Definition on_new_window (url : string) (st : State) : Outcome :=
  match parseURL url with
  | None => Threw st
  | Some parsedURL =>
      if String.eqb (protocol parsedURL) "devtools:" then Returned st
      else
        let st := emit preventDefault st in
        if negb (isValidURI url) then Returned st
        else if negb (String.eqb (protocol parsedURL) "http:")
                && negb (String.eqb (protocol parsedURL) "https:")
                && negb (String.eqb (protocol parsedURL) (scheme_protocol st))
        then Returned (emit (protocol_dialog (protocol parsedURL) url) st)
        else
          match getServer (Some parsedURL) (teams st) with
          | None => Returned (emit (openExternal url) st)
          | Some server =>
              if matches_public_files (pathname parsedURL)
              then Returned (emit (openExternal url) st)
              else if matches_help (pathname parsedURL)
              then Returned (emit (openExternal url) st)
              else if isTeamUrl (View.url server) (Some parsedURL) true
              then Returned (emit (log_info (url +:+ " is a known team, preventing to open a new window")) st)
              else if isAdminUrl (View.url server) (Some parsedURL)
              then Returned (emit (log_info (url +:+ " is an admin console page, preventing to open a new window")) st)
              else if match open_popup st with
                      | Some (_, win) => String.eqb (getURL win) url
                      | None => false
                      end
              then Returned (emit (log_info ("Popup window already open at provided url: " +:+ url)) st)
              else if isPluginUrl (View.url server) (Some parsedURL)
                      || isManagedResource (View.url server) (Some parsedURL)
              then
                let st := match open_popup st with
                          | Some _ => st
                          | None => create_popup st
                          end in
                if isManagedResource (View.url server) (Some parsedURL)
                then popup_load url None st
                else popup_load url (popupUserAgent platform) st
              else Returned st
          end
  end.

(** The request gets past every earlier [return] of the [new-window]
    handler, the test for a popup already at [url] apart, and is a
    plugin or managed-resource destination. *)
Definition popup_target (url : string) (st : State) : bool :=
  match parseURL url with
  | None => false
  | Some parsedURL =>
      negb (String.eqb (protocol parsedURL) "devtools:")
      && isValidURI url
      && (String.eqb (protocol parsedURL) "http:"
          || String.eqb (protocol parsedURL) "https:"
          || String.eqb (protocol parsedURL) (scheme_protocol st))
      && match getServer (Some parsedURL) (teams st) with
         | None => false
         | Some server =>
             negb (matches_public_files (pathname parsedURL))
             && negb (matches_help (pathname parsedURL))
             && negb (isTeamUrl (View.url server) (Some parsedURL) true)
             && negb (isAdminUrl (View.url server) (Some parsedURL))
             && (isPluginUrl (View.url server) (Some parsedURL)
                 || isManagedResource (View.url server) (Some parsedURL))
         end
  end.

(** The listener of [ready-to-show]: [popupWindow.show()], on whatever
    the variable refers to by then. *)
Definition on_ready_to_show (i : nat) (st : State) : Outcome :=
  match windows st !! i with
  | Some win =>
      if once_ready win && negb (closed win) then
        let st := update_window i (set_once_ready false) st in
        match popupWindow st with
        | Some j => Returned (emit (popup_show j) (update_window j (set_shown true) st))
        | None => Threw st
        end
      else Returned st
  | None => Returned st
  end.

(** The window is closed, and its [closed] listener clears the
    variable. *)
Definition on_closed (i : nat) (st : State) : Outcome :=
  match windows st !! i with
  | Some win =>
      if closed win then Returned st
      else
        let st := update_window i (set_closed true) st in
        if once_closed win
        then Returned (set_popupWindow None (update_window i (set_once_closed false) st))
        else Returned st
  | None => Returned st
  end.

Inductive Event :=
| WebContentsCreated (contents : nat)
| WillNavigate (sender : Sender) (url : string)
| DidStartNavigation (sender : Sender) (url : string)
| NewWindow (url : string)
| ReadyToShow (i : nat)
| Closed (i : nat)
| PopupNavigated (i : nat) (url : string).

Definition handle (st : State) (ev : Event) : Outcome :=
  match ev with
  | WebContentsCreated contents => Returned (handleAppWebContentsCreated contents st)
  | WillNavigate sender url => on_will_navigate sender url st
  | DidStartNavigation sender url => on_did_start_navigation sender url st
  | NewWindow url => on_new_window url st
  | ReadyToShow i => on_ready_to_show i st
  | Closed i => on_closed i st
  | PopupNavigated i url =>
      Returned (match windows st !! i with
                | Some win => if closed win then st
                              else update_window i (set_getURL url) st
                | None => st
                end)
  end.

Definition step (st : State) (ev : Event) : State := state_of (handle st ev).

Definition run (st : State) (evs : list Event) : State := foldl step st evs.

(** The state at start-up: no popup, no window yet. *)
Definition start (sch : option string) (ts : list View.Server)
           (spell : option bool) : State :=
  {| popupWindow := None; windows := []; customLogins := ∅; scheme := sch;
     teams := ts; useSpellChecker := spell; effects := [] |}.

(** *** What the properties count *)

Definition is_open (win : BrowserWindow) : bool := negb (closed win).

Definition open_windows (st : State) : nat :=
  length (List.filter is_open (windows st)).

(** Every open window is the one the variable [popupWindow] holds. *)
Definition tracked (st : State) : Prop :=
  forall i win, windows st !! i = Some win -> closed win = false ->
                popupWindow st = Some i.

Definition constructed (st : State) : nat := length (windows st).

End Handlers.

End Nav.

(** ** Sample collaborators

    Instances of the two interfaces, on which the general statements below
    are run. *)

Module Sample.

(** Modelled from the spec: [common/utils/constants] is missing; the
    scenario of the specification has a configured maximum of 3 retries,
    and the fixed interval is taken as 5000 ms. [parseUrl] hands the URL
    on unchanged. *)
Definition imports : Imports :=
  {| MAX_SERVER_RETRIES := 3; RELOAD_INTERVAL := 5000; parseUrl := λ u, u |}.

(** The server of the scenarios. *)
Definition A : View.Server :=
  {| View.name := "A"; View.url := "https://a.example.com" |}.

(** Splits [s] at the first colon. *)
Fixpoint split_colon (s : string) : option (string * string) :=
  match s with
  | EmptyString => None
  | String c r =>
      if Ascii.eqb c ":" then Some (EmptyString, r)
      else match split_colon r with
           | Some (a, b) => Some (String c a, b)
           | None => None
           end
  end.

(** From the first slash on, or [/] when there is none. *)
Fixpoint from_slash (s : string) : string :=
  match s with
  | EmptyString => "/"
  | String c r => if Ascii.eqb c "/" then s else from_slash r
  end.

(** Modelled from the spec: [common/utils/url] is missing. [parse] reads
    a scheme up to the first colon and, after [//] and a host, the path; a
    string without a scheme is unparseable. *)
Definition parse (u : string) : option ParsedURL :=
  match split_colon u with
  | Some (EmptyString, _) => None
  | Some (sch, rest) =>
      Some {| href := u; protocol := sch +:+ ":";
              pathname := match Nav.strip_prefix "//" rest with
                          | Some r => from_slash r
                          | None => rest
                          end;
              path := None |}
  | None => None
  end.

Definition under (p : option ParsedURL) (prefixes : list string) : bool :=
  match p with
  | Some q => existsb (λ pre, Nav.starts_with pre (pathname q)) prefixes
  | None => false
  end.

Definition server_of (p : option ParsedURL) (teams : list View.Server)
  : option View.Server :=
  match p with
  | Some q => List.find (λ srv, Nav.starts_with (View.url srv +:+ "/") (href q)) teams
  | None => None
  end.

(** Modelled from the spec: a classifier over the configured servers in
    which an unparseable URL matches nothing; plugin pages live under
    [/plugins/], managed resources under [/trusted/], the admin console
    under [/admin_console/], and the other pages of a server are team
    pages. *)
Definition classifier : Classifier :=
  {| parseURL := parse;
     isValidURI := λ u, match split_colon u with
                        | Some (String _ _, _) => true
                        | _ => false
                        end;
     getServer := server_of;
     isTeamUrl := λ _ p withApi,
       match p with
       | Some _ => negb (under p ["/plugins/"; "/trusted/"; "/admin_console/";
                                  "/login"; "/signup"; "/oauth/"])
                   && negb (withApi && under p ["/api/"])
       | None => false
       end;
     isAdminUrl := λ _ p, under p ["/admin_console/"];
     isPluginUrl := λ _ p, under p ["/plugins/"];
     isManagedResource := λ _ p, under p ["/trusted/"];
     isCustomLoginURL := λ p _ _, under p ["/oauth/"; "/login/sso/saml"];
     isTrustedURL := λ p teams, match server_of p teams with
                                | Some _ => true
                                | None => false
                                end;
     runMode := "production";
     DEVELOPMENT := "development";
     PRODUCTION := "production";
     platform := "linux" |}.

(** The navigation state of the scenarios: server [A] configured, the
    deep-link scheme registered, nothing open. *)
Definition nav0 : Nav.State :=
  Nav.start (Some "mattermost") [A] None.

#[local] Existing Instance imports.
#[local] Existing Instance classifier.

(** *** Views of server [A] *)

Definition failing : string := "ERR_CONNECTION_REFUSED".

(** Just constructed, and with its first request made. *)
Definition fresh : View.World := View.boot A.
Definition requested : View.World := View.step fresh (View.Call_load None).

(** After a load that failed and [j] retries that failed. *)
Definition attempts (j : nat) : View.World :=
  Nat.iter j (View.failed_retry failing) (View.failed_load None failing fresh).

(** After a first successful load whose title has no marker. *)
Definition loaded : View.World :=
  View.run fresh [View.Call_load None; View.LoadResolves 0 "Channel"].

(** Later, with the unread state of the favicon [icon] in the memo. *)
Definition memoized : View.World :=
  View.run loaded [View.PageTitleUpdated "Channel";
                   View.PageFaviconUpdated ["icon"];
                   View.UnreadResult (Js.FavStr "icon") "A" true].

(** *** Popup requests *)

Definition plugin_page : string := "https://a.example.com/plugins/jira/connect".
Definition other_plugin_page : string := "https://a.example.com/plugins/zoom/meeting".
Definition download_link : string := "https://a.example.com/api/v4/public/files/x".
Definition ftp_help_link : string := "ftp://a.example.com/help/x".
Definition mail_link : string := "mailto:someone@example.com".

(** The popup is open and shown at [plugin_page]. *)
Definition popup_shown : Nav.State :=
  Nav.run nav0 [Nav.NewWindow plugin_page; Nav.ReadyToShow 0].

(** One content surface has been created. *)
Definition surface : Nav.State := Nav.handleAppWebContentsCreated 1 nav0.

End Sample.

(** * Properties of the view *)

Module ViewProps.
Import View.

(** Unfolds a handler down to the state it returns. *)
Ltac exec :=
  cbv [step run run_handler load retry loadRetry retry_catch findUnreadState
       handleTitleUpdate handleFaviconUpdate handleFaviconIsUnread
       attach_listeners loadSuccess destroy setReadyCallback
       failed_load failed_retry find_timer drop_timer find_loading drop_loading
       on_rejected on_resolved try_catch
       webContents_load pending setTimeout clearTimeout this_server Date_now
       read write effect throw skip mbind mret Handler_bind Handler_ret
       foldl] in *.

Ltac drop_self :=
  rewrite filter_cons; case_decide; [simpl in *; congruence|].

Ltac open_world w :=
  let v := fresh "v" in
  destruct w as [v ? ? ? ? ? ? ?]; destruct v; simpl in *; subst.

Section Retry.
Context `{Imports}.

Lemma failed_load_arms (w : World) (someURL : option string) (err : string)
      (srv : Server) :
  server (this w) = Some srv -> view_destroyed (this w) = false ->
  timers w = [] -> loadings w = [] ->
  let w' := failed_load someURL err w in
  armed srv (maxRetries (this w)) w' /\ status (this w') = status (this w) /\
  count is_LOAD_FAILED w' = count is_LOAD_FAILED w.
Proof.
  intros Hs Hd Ht Hl w'. subst w'. open_world w.
  exec. simpl.
  destruct someURL; simpl; rewrite Nat.eqb_refl; simpl;
    drop_self; simpl;
    (split; [unfold armed; simpl; repeat split; eauto;
             eexists; repeat split; simpl; lia | done]).
Qed.

Lemma failed_retry_rearms (w : World) (err : string) (srv : Server) (k : Z) :
  armed srv k w -> 0 < k ->
  let w' := failed_retry err w in
  armed srv (k - 1) w' /\ status (this w') = status (this w) /\
  count is_LOAD_FAILED w' = count is_LOAD_FAILED w.
Proof.
  intros (Hs & Hd & Hl & Hk & t & Ht & Hr & Hdue) Hpos w'. subst w'.
  open_world w. destruct t as [ti td tdue tu]. simpl in *.
  exec. simpl. rewrite Nat.eqb_refl.
  simpl. assert (Hle: (tdue <=? clock0 + Z.max 0 RELOAD_INTERVAL) = true) by (apply Z.leb_le; lia).
  rewrite Hle. simpl.
  drop_self. simpl.
  rewrite Nat.eqb_refl. simpl.
  drop_self. simpl.
  assert (Hp: (0 <? k) = true) by (apply Z.ltb_lt; lia).
  rewrite Hp. simpl.
  split; [unfold armed; simpl; repeat split; eauto;
          eexists; repeat split; simpl; lia | done].
Qed.

Lemma failed_retry_gives_up (w : World) (err : string) (srv : Server) (k : Z) :
  armed srv k w -> k <= 0 ->
  let w' := failed_retry err w in
  status (this w') = ERROR /\
  count is_LOAD_FAILED w' = S (count is_LOAD_FAILED w) /\
  timers w' = [] /\ loadings w' = [] /\ maxRetries (this w') = k - 1.
Proof.
  intros (Hs & Hd & Hl & Hk & t & Ht & Hr & Hdue) Hpos w'. subst w'.
  open_world w. destruct t as [ti td tdue tu]. simpl in *.
  exec. simpl. rewrite Nat.eqb_refl.
  simpl. assert (Hle: (tdue <=? clock0 + Z.max 0 RELOAD_INTERVAL) = true) by (apply Z.leb_le; lia).
  rewrite Hle. simpl.
  drop_self. simpl.
  rewrite Nat.eqb_refl. simpl.
  drop_self. simpl.
  assert (Hp: (0 <? k) = false) by (apply Z.ltb_ge; lia).
  rewrite Hp. simpl. done.
Qed.

Lemma failed_retries_rearm (err : string) (srv : Server) (j : nat) :
  forall (w : World) (k : Z),
    armed srv k w -> Z.of_nat j <= k ->
    let w' := Nat.iter j (failed_retry err) w in
    armed srv (k - Z.of_nat j) w' /\ status (this w') = status (this w) /\
    count is_LOAD_FAILED w' = count is_LOAD_FAILED w.
Proof.
  induction j as [|j IH]; intros w k Ha Hk; simpl.
  - rewrite Z.sub_0_r. split; [exact Ha | split; reflexivity].
  - destruct (IH w k Ha ltac:(lia)) as (Ha' & Hst & Hc).
    destruct (failed_retry_rearms _ err srv _ Ha' ltac:(lia)) as (Ha'' & Hst' & Hc').
    replace (k - Z.of_nat (S j)) with (k - Z.of_nat j - 1) by lia.
    split; [exact Ha'' | split; congruence].
Qed.

Lemma success_resets_counter (w : World) (i : nat) (l : Loading)
      (title : string) (srv : Server) :
  find_loading i w = Some l -> server (this w) = Some srv ->
  maxRetries (this (step w (LoadResolves i title))) = MAX_SERVER_RETRIES.
Proof.
  intros Hl Hs. unfold step. rewrite Hl. open_world w. exec. simpl.
  destruct status0; simpl;
    try destruct (TitleParser.ASTERISK_GROUP (TitleParser.first_match title));
    simpl; destruct readyCallBack0; reflexivity.
Qed.

(** C7. A load that fails while retries remain schedules exactly one
    retry, [RELOAD_INTERVAL] ahead whatever the number of earlier
    failures, and sends exactly one [LOAD_RETRY] whose time of the next
    attempt is the current time plus that interval. The failing request
    is either the one of [load], which always retries, or the one of a
    retry, which retries while the counter is positive. *)
Theorem failure_schedules_one_retry (w : World) (i : nat) (err : string)
        (l : Loading) (srv : Server) :
  find_loading i w = Some l ->
  server (this w) = Some srv ->
  (origin l = from_retry -> 0 < maxRetries (this w)) ->
  let w' := step w (LoadRejects i err) in
  timers w' = (timers w ++ [{| timer_id := timer_count w;
                               delay := RELOAD_INTERVAL;
                               due := clock w + RELOAD_INTERVAL;
                               retry_url := load_url l |}])%list
  /\ retryLoad (this w') = Some (timer_count w)
  /\ trace w' = sendToRenderer (LOAD_RETRY (name srv) (clock w + RELOAD_INTERVAL)
                                           err (load_url l)) :: trace w.
Proof.
  intros Hl Hs Hn w'. subst w'. unfold step. rewrite Hl. exec.
  destruct (origin l) eqn:Ho; simpl; rewrite ?Hs; simpl.
  - auto.
  - specialize (Hn eq_refl). apply Z.ltb_lt in Hn. rewrite Hn.
    simpl. rewrite Hs. simpl. auto.
Qed.

(** C1 (amended). [load], with or without a URL, forgets the handle of
    the scheduled retry and requests the server URL or the parsed
    argument; it leaves the retry counter as it is, and the counter is
    back at [MAX_SERVER_RETRIES] once a pending request succeeds. *)
Theorem load_forgets_handle_keeps_counter (w : World) (someURL : option string)
        (srv : Server) :
  server (this w) = Some srv -> view_destroyed (this w) = false ->
  let target := match someURL with None => url srv | Some u => parseUrl u end in
  let w' := step w (Call_load someURL) in
  retryLoad (this w') = None
  /\ maxRetries (this w') = maxRetries (this w)
  /\ trace w' = webContents_loadURL target :: trace w
  /\ loadings w' = (loadings w ++ [{| load_id := load_count w; origin := from_load;
                                      load_url := target |}])%list
  /\ forall i l title,
       find_loading i w' = Some l ->
       maxRetries (this (step w' (LoadResolves i title))) = MAX_SERVER_RETRIES.
Proof.
  intros Hs Hd target w'.
  assert (Hs' : server (this w') = Some srv).
  { subst target w'. open_world w. by destruct someURL. }
  split; [|split; [|split; [|split]]];
    try (subst target w'; open_world w; by destruct someURL).
  intros i l title Hl. by apply (success_resets_counter w' i l title srv).
Qed.

(** C2 (amended). From a view at rest whose counter is at the configured
    maximum, let the request of [load] and then every retry fail. Up to
    and including the failure that brings the counter to zero the status
    is unchanged, nothing terminal is sent and one retry is pending.
    The next failure, the one after [MAX_SERVER_RETRIES + 1] retries,
    sends the one [LOAD_FAILED], sets the status to [ERROR] and
    schedules nothing, so that no timer can fire afterwards; the
    counter, decremented by every failed retry, is then at -1. *)
Theorem retries_exhausted (w : World) (someURL : option string) (err : string)
        (srv : Server) :
  server (this w) = Some srv -> view_destroyed (this w) = false ->
  timers w = [] -> loadings w = [] ->
  maxRetries (this w) = MAX_SERVER_RETRIES -> 0 <= MAX_SERVER_RETRIES ->
  let attempts (j : nat) :=
    Nat.iter j (failed_retry err) (failed_load someURL err w) in
  let n := Z.to_nat MAX_SERVER_RETRIES in
  (forall j, (j <= n)%nat ->
     status (this (attempts j)) = status (this w) /\
     count is_LOAD_FAILED (attempts j) = count is_LOAD_FAILED w /\
     maxRetries (this (attempts j)) = MAX_SERVER_RETRIES - Z.of_nat j /\
     exists t, timers (attempts j) = [t]) /\
  status (this (attempts (S n))) = ERROR /\
  count is_LOAD_FAILED (attempts (S n)) = S (count is_LOAD_FAILED w) /\
  timers (attempts (S n)) = [] /\ loadings (attempts (S n)) = [] /\
  (forall id, step (attempts (S n)) (TimerFires id) = attempts (S n)) /\
  maxRetries (this (attempts (S n))) = -1.
Proof.
  intros Hs Hd Ht Hl Hm Hpos attempts n.
  destruct (failed_load_arms w someURL err srv Hs Hd Ht Hl) as (Ha & Hst & Hc).
  rewrite Hm in Ha.
  assert (Hj : forall j, (j <= n)%nat ->
            armed srv (MAX_SERVER_RETRIES - Z.of_nat j) (attempts j) /\
            status (this (attempts j)) = status (this w) /\
            count is_LOAD_FAILED (attempts j) = count is_LOAD_FAILED w).
  { intros j Hjn.
    destruct (failed_retries_rearm err srv j _ _ Ha ltac:(lia)) as (Ha' & Hst' & Hc').
    cbv zeta in *. unfold attempts.
    split; [exact Ha' | split; [rewrite Hst'; exact Hst | rewrite Hc'; exact Hc]]. }
  split.
  - intros j Hjn. destruct (Hj j Hjn) as ((_ & _ & _ & Hk & t & Ht' & _) & Hst' & Hc').
    repeat split; try done. by exists t.
  - destruct (Hj n ltac:(lia)) as (Ha' & Hst' & Hc').
    destruct (failed_retry_gives_up _ err srv _ Ha' ltac:(lia))
      as (Hst'' & Hc'' & Ht'' & Hl'' & Hm'').
    change (attempts (S n)) with (failed_retry err (attempts n)).
    repeat split; try done.
    + congruence.
    + intros id. unfold step, find_timer. by rewrite Ht''.
    + rewrite Hm''. lia.
Qed.

End Retry.

Section Detector.
Context `{Imports}.

Lemma keeps_bind {A B : Type} (m : Handler A) (f : A -> Handler B) :
  keeps m -> (forall a, keeps (f a)) -> keeps (m ≫= f).
Proof.
  intros Hm Hf w Hw. unfold mbind, Handler_bind.
  specialize (Hm w Hw). destruct (m w) as [[a|] w1]; simpl in *; [|done].
  by apply Hf.
Qed.

Lemma keeps_try_catch {A : Type} (m h : Handler A) :
  keeps m -> keeps h -> keeps (try_catch m h).
Proof.
  intros Hm Hh w Hw. unfold try_catch.
  specialize (Hm w Hw). destruct (m w) as [[a|] w1]; simpl in *; [done|].
  by apply Hh.
Qed.

Lemma keeps_ret {A : Type} (a : A) : keeps (mret a).
Proof. by intros w Hw. Qed.

Lemma keeps_throw {A : Type} : keeps (@throw A).
Proof. by intros w Hw. Qed.

Lemma keeps_read {A : Type} (f : MattermostView -> A) : keeps (read f).
Proof. by intros w Hw. Qed.

Lemma keeps_effect (e : Effect) : keeps (effect e).
Proof. by intros w Hw. Qed.

Lemma keeps_write (f : MattermostView -> MattermostView) :
  (forall v, usesAsteriskForUnreads (f v) = usesAsteriskForUnreads v
             \/ usesAsteriskForUnreads (f v) = Some true) ->
  keeps (write f).
Proof.
  intros Hf w Hw. simpl. destruct (Hf (this w)) as [E|E]; congruence.
Qed.

Lemma keeps_setTimeout (u : string) (ms : Z) : keeps (setTimeout u ms).
Proof. by intros w Hw. Qed.

Lemma keeps_clearTimeout (h : option nat) : keeps (clearTimeout h).
Proof. intros w Hw. by destruct h. Qed.

Lemma keeps_pending (o : Origin) (u : string) : keeps (pending o u).
Proof. by intros w Hw. Qed.

Lemma keeps_Date_now : keeps Date_now.
Proof. by intros w Hw. Qed.

Lemma keeps_attach : keeps attach_listeners.
Proof. by intros w Hw. Qed.

Ltac keeps_step :=
  first
    [ apply keeps_bind; [|intros ?]
    | apply keeps_try_catch
    | apply keeps_ret | apply keeps_throw | apply keeps_read
    | apply keeps_effect | apply keeps_setTimeout | apply keeps_clearTimeout
    | apply keeps_pending | apply keeps_Date_now | apply keeps_attach
    | apply keeps_write; intros []; simpl; auto
    | match goal with
      | |- keeps (match ?x with _ => _ end) => destruct x
      end ].

Ltac keeps_all :=
  cbv [load retry loadRetry retry_catch findUnreadState handleTitleUpdate
       handleFaviconUpdate handleFaviconIsUnread loadSuccess destroy
       setReadyCallback webContents_load this_server skip
       on_rejected on_resolved];
  cbv zeta; repeat keeps_step.

Lemma keeps_run_handler (h : Handler unit) (w : World) :
  keeps h -> usesAsteriskForUnreads (this w) = Some true ->
  usesAsteriskForUnreads (this (run_handler h w)) = Some true.
Proof.
  intros Hh Hw. unfold run_handler. specialize (Hh w Hw).
  by destruct (h w) as [[[]|] w1].
Qed.

(** No event takes the flag back once it is [true]. *)
Lemma step_keeps_flag (w : World) (ev : Event) :
  usesAsteriskForUnreads (this w) = Some true ->
  usesAsteriskForUnreads (this (step w ev)) = Some true.
Proof.
  intros Hf. destruct ev; unfold step; try done;
    repeat case_match; try done;
    apply keeps_run_handler; try done; keeps_all.
Qed.

Lemma run_keeps_flag (evs : list Event) :
  forall w : World,
    usesAsteriskForUnreads (this w) = Some true ->
    usesAsteriskForUnreads (this (run w evs)) = Some true.
Proof.
  induction evs as [|ev evs IH]; intros w Hf; [done|].
  apply (IH (step w ev)). by apply step_keeps_flag.
Qed.

Lemma title_with_asterisk_sets_flag (w : World) (title : string) :
  listening w = true ->
  TitleParser.ASTERISK_GROUP (TitleParser.first_match title) <> None ->
  usesAsteriskForUnreads (this (step w (PageTitleUpdated title))) = Some true.
Proof.
  intros Hl Ha. open_world w. exec.
  destruct (TitleParser.ASTERISK_GROUP (TitleParser.first_match title)); [|done].
  simpl. by destruct server0.
Qed.

Lemma favicon_update_ignored (w : World) (favicons : list string) :
  usesAsteriskForUnreads (this w) = Some true ->
  step w (PageFaviconUpdated favicons) = w.
Proof.
  intros Hf. open_world w. exec. simpl. by destruct listening0.
Qed.

(** C3 (amended). Once a title has been seen with the asterisk present,
    the flag is [true] after every later sequence of events, and a
    favicon update then changes nothing at all: neither what is
    published, nor the memo, nor the current favicon. *)
Theorem asterisk_seen_is_sticky (w : World) (title : string)
        (evs : list Event) (favicons : list string) :
  listening w = true ->
  TitleParser.ASTERISK_GROUP (TitleParser.first_match title) <> None ->
  let w' := run (step w (PageTitleUpdated title)) evs in
  usesAsteriskForUnreads (this w') = Some true /\
  step w' (PageFaviconUpdated favicons) = w'.
Proof.
  intros Hl Ha w'.
  assert (Hf : usesAsteriskForUnreads (this w') = Some true).
  { apply run_keeps_flag. by apply title_with_asterisk_sets_flag. }
  split; [exact Hf | by apply favicon_update_ignored].
Qed.

(** *** The mention count *)

Lemma append_cons (c : ascii) (a b : string) :
  String c a +:+ b = String c (a +:+ b).
Proof. reflexivity. Qed.

Lemma take_digits_spec (s : string) :
  forall ds r, TitleParser.take_digits s = (ds, r) ->
               TitleParser.all_digits ds = true /\ s = ds +:+ r.
Proof.
  induction s as [|c s IH]; intros ds r E; simpl in E.
  - by inversion E.
  - destruct (Js.is_digit c) eqn:Hc.
    + destruct (TitleParser.take_digits s) as [ds' r'] eqn:E'.
      inversion E; subst. destruct (IH ds' r eq_refl) as [Hd ->].
      simpl. by rewrite Hc, Hd.
    + by inversion E.
Qed.

Lemma take_digits_marker (ds rest : string) :
  TitleParser.all_digits ds = true ->
  TitleParser.take_digits (ds +:+ String ")"%char rest)
  = (ds, String ")"%char rest).
Proof.
  induction ds as [|c ds IH]; intros Hd; [done|].
  simpl in Hd. apply andb_true_iff in Hd as [Hc Hd].
  rewrite append_cons. simpl. by rewrite Hc, (IH Hd).
Qed.

(** The parser finds the marker exactly when the title begins with it. *)
Lemma mentions_group_marker (title ds : string) :
  TitleParser.leading_marker title ds <->
  exists rest, TitleParser.mentions_group title = Some (ds, rest).
Proof.
  split.
  - intros (Hne & Hd & rest & ->). exists rest.
    unfold TitleParser.mentions_group.
    rewrite (take_digits_marker ds _ Hd). by destruct ds.
  - intros (rest & E). unfold TitleParser.mentions_group in E.
    destruct title as [|c title]; [done|].
    destruct (Ascii.eqb_spec c "("%char) as [->|Hc].
    + destruct (TitleParser.take_digits title) as [d r] eqn:Et.
      destruct (take_digits_spec _ _ _ Et) as [Hd ->].
      destruct d as [|d0 d]; [done|].
      destruct r as [|c1 r]; [done|].
      destruct c1 as [[] [] [] [] [] [] [] []]; try discriminate E.
      destruct r as [|c2 r]; [done|].
      destruct c2 as [[] [] [] [] [] [] [] []]; try discriminate E.
      inversion E; subst. repeat split; [done | done | by exists rest].
    + destruct c as [[] [] [] [] [] [] [] []]; try discriminate E.
      by destruct Hc.
Qed.

Lemma first_match_marker (title ds : string) :
  TitleParser.leading_marker title ds ->
  TitleParser.MENTIONS_GROUP (TitleParser.first_match title) = Some ds.
Proof.
  intros [rest E]%mentions_group_marker.
  unfold TitleParser.first_match. by rewrite E.
Qed.

Lemma first_match_no_marker (title : string) :
  (forall ds, ~ TitleParser.leading_marker title ds) ->
  TitleParser.MENTIONS_GROUP (TitleParser.first_match title) = None.
Proof.
  intros Hno. unfold TitleParser.first_match.
  destruct (TitleParser.mentions_group title) as [[ds rest]|] eqn:E; [|done].
  exfalso. apply (Hno ds). apply mentions_group_marker. by exists rest.
Qed.

Lemma title_update_trace (w : World) (srv : Server) (title : string) :
  listening w = true -> server (this w) = Some srv ->
  let m := TitleParser.first_match title in
  let uses := match TitleParser.ASTERISK_GROUP m with
              | Some _ => Some true
              | None => usesAsteriskForUnreads (this w)
              end in
  let w' := step w (PageTitleUpdated title) in
  usesAsteriskForUnreads (this w') = uses /\
  server (this w') = Some srv /\ listening w' = true /\
  trace w' =
    appState_updateMentions
      (name srv)
      (Js.or_zero (Js.parseInt10 (TitleParser.MENTIONS_GROUP m)))
      (if flag_set uses
       then Some (if TitleParser.ASTERISK_GROUP m is Some _ then true else false)
       else None) :: trace w.
Proof.
  intros Hl Hs. open_world w. exec.
  by destruct (TitleParser.ASTERISK_GROUP (TitleParser.first_match title)).
Qed.

(** C4. On a view that observes its page, the title [(3) *Channel]
    publishes 3 mentions and unreads [true], and the title [Channel]
    that follows publishes 0 mentions and unreads [false]. For every
    title, the count published is the one parsed from the digits of the
    leading marker (as a number: exact below [2^53]), and 0 when the
    title has no such marker. *)
Theorem title_update_publishes_mentions (w : World) (srv : Server) :
  listening w = true -> server (this w) = Some srv ->
  (let w1 := step w (PageTitleUpdated "(3) *Channel") in
   let w2 := step w1 (PageTitleUpdated "Channel") in
   trace w1 = appState_updateMentions (name srv) (Js.Num 3) (Some true) :: trace w /\
   trace w2 = appState_updateMentions (name srv) (Js.Num 0) (Some false) :: trace w1)
  /\
  forall title, exists mentions unreads,
    trace (step w (PageTitleUpdated title))
    = appState_updateMentions (name srv) mentions unreads :: trace w /\
    (forall ds, TitleParser.leading_marker title ds ->
                mentions = Js.or_zero (Js.toDouble (Js.decimal ds)) /\
                (Js.decimal ds < 2 ^ 53 -> mentions = Js.Num (Js.decimal ds))) /\
    ((forall ds, ~ TitleParser.leading_marker title ds) -> mentions = Js.Num 0).
Proof.
  intros Hl Hs. split.
  - destruct (title_update_trace w srv "(3) *Channel" Hl Hs) as (Hu & Hs1 & Hl1 & Ht).
    destruct (title_update_trace _ srv "Channel" Hl1 Hs1) as (_ & _ & _ & Ht2).
    cbv zeta in *. split; [exact Ht|]. rewrite Ht2, Hu. reflexivity.
  - intros title.
    destruct (title_update_trace w srv title Hl Hs) as (_ & _ & _ & Ht).
    eexists _, _. split; [exact Ht|]. split.
    + intros ds Hm. rewrite (first_match_marker _ _ Hm). simpl.
      split; [done|]. intros Hlt. unfold Js.toDouble.
      apply Z.ltb_lt in Hlt. rewrite Hlt. simpl.
      by destruct (Js.decimal ds).
    + intros Hno. by rewrite (first_match_no_marker _ Hno).
Qed.

(** *** The favicon memo *)

(** C5 (amended). While the asterisk has not been seen, a favicon update
    with a non-empty favicon that the memo does not hold issues one
    probe; once the result of that probe has come back for this server
    it is in the memo and is published, and the next update with the
    same favicon publishes the memoized value and issues no probe: one
    probe in all. The result of a probe for the [null] favicon is
    published and leaves the memo as it was. *)
Theorem favicon_memo_answers_after_result (w : World) (srv : Server)
        (f : string) (more : list string) (r : bool) :
  listening w = true -> server (this w) = Some srv ->
  flag_set (usesAsteriskForUnreads (this w)) = false ->
  f <> EmptyString ->
  faviconMemoize (this w) !! Js.FavStr f = None ->
  let w1 := step w (PageFaviconUpdated (f :: more)) in
  let w2 := step w1 (UnreadResult (Js.FavStr f) (name srv) r) in
  let w3 := step w2 (PageFaviconUpdated (f :: more)) in
  trace w1 = webContents_send_IS_UNREAD (Js.FavStr f) (name srv) :: trace w /\
  faviconMemoize (this w2) = <[Js.FavStr f := r]> (faviconMemoize (this w)) /\
  trace w2 = appState_updateUnreads (name srv) r :: trace w1 /\
  trace w3 = appState_updateUnreads (name srv) r :: trace w2 /\
  count is_probe w3 = S (count is_probe w) /\
  forall r',
    let wn := step w (UnreadResult Js.FavNull (name srv) r') in
    faviconMemoize (this wn) = faviconMemoize (this w) /\
    trace wn = appState_updateUnreads (name srv) r' :: trace w.
Proof.
  intros Hl Hs Hf Hne Hm. open_world w.
  assert (Hnb : String.eqb f "" = false) by by apply String.eqb_neq.
  exec. simpl. rewrite Hf. simpl. rewrite Hm. simpl.
  rewrite String.eqb_refl. simpl. rewrite Hnb. simpl.
  rewrite (bool_decide_eq_true_2 (Js.FavStr f = Js.FavStr f) eq_refl).
  simpl. rewrite Hf. simpl. rewrite lookup_insert_eq. simpl.
  unfold count. simpl. done.
Qed.

Lemma destroy_clears_server (w : World) :
  server (this (step w Call_destroy)) = None.
Proof.
  open_world w. exec. simpl.
  destruct retryLoad0, window0; reflexivity.
Qed.

Lemma unread_result_not_for_us (w : World) (favicon : Js.JsFavicon)
      (serverName : string) (result : bool) :
  (forall srv, server (this w) = Some srv -> serverName <> name srv) ->
  step w (UnreadResult favicon serverName result) = w.
Proof.
  intros Hn. open_world w. exec. destruct listening0; [|done].
  simpl. destruct server0 as [srv|]; [|done].
  pose proof (Hn srv eq_refl) as Hne. apply String.eqb_neq in Hne.
  by rewrite Hne.
Qed.

(** C10. An [UNREAD_RESULT] changes the memo or what is published only
    if the view still has its server and the result names it; a result
    for another server, or one that comes after [destroy], leaves the
    world as it is. *)
Theorem unread_result_guard (w : World) (favicon : Js.JsFavicon)
        (serverName : string) (result : bool) :
  let w' := step w (UnreadResult favicon serverName result) in
  (faviconMemoize (this w') <> faviconMemoize (this w) \/ trace w' <> trace w ->
   exists srv, server (this w) = Some srv /\ serverName = name srv) /\
  (server (this w) = None -> w' = w) /\
  (forall srv, server (this w) = Some srv -> serverName <> name srv -> w' = w) /\
  let wd := step w Call_destroy in
  server (this wd) = None /\
  step wd (UnreadResult favicon serverName result) = wd.
Proof.
  intros w'. split; [|split; [|split; [|split]]].
  - intros Hch. destruct (server (this w)) as [srv|] eqn:Hs.
    + destruct (String.eqb_spec serverName (name srv)) as [E|E]; [by exists srv|].
      exfalso. subst w'. rewrite unread_result_not_for_us in Hch.
      * destruct Hch as [Hch|Hch]; by apply Hch.
      * intros srv' Hs'. congruence.
    + exfalso. subst w'. rewrite unread_result_not_for_us in Hch.
      * destruct Hch as [Hch|Hch]; by apply Hch.
      * intros srv' Hs'. congruence.
  - intros Hs. apply unread_result_not_for_us. intros srv Hs'. congruence.
  - intros srv Hs Hn. apply unread_result_not_for_us. intros srv' Hs'. congruence.
  - apply destroy_clears_server.
  - apply unread_result_not_for_us. intros srv Hs.
    by rewrite destroy_clears_server in Hs.
Qed.

End Detector.

(** *** The statements on the sample server *)

Section OnSample.
#[local] Existing Instance Sample.imports.

Lemma failure_schedules_one_retry_witness :
  timers (step Sample.requested (LoadRejects 0 Sample.failing))
  = [{| timer_id := 0; delay := 5000; due := 5000;
        retry_url := "https://a.example.com" |}]
  /\ retryLoad (this (step Sample.requested (LoadRejects 0 Sample.failing)))
     = Some 0%nat
  /\ trace (step Sample.requested (LoadRejects 0 Sample.failing))
     = sendToRenderer (LOAD_RETRY "A" 5000 Sample.failing "https://a.example.com")
       :: trace Sample.requested.
Proof.
  exact (failure_schedules_one_retry
           Sample.requested 0 Sample.failing
           {| load_id := 0; origin := from_load;
              load_url := "https://a.example.com" |} Sample.A
           eq_refl eq_refl ltac:(discriminate)).
Defined.

(** C1 as stated fails. The sample view has failed a load and one retry:
    its second retry, timer 1, is scheduled and its counter is at 2.
    [load] leaves the timer in place and the counter at 2, and the
    timer fires later and loads again. *)
Lemma load_leaves_timer_and_counter :
  retryLoad (this (Sample.attempts 1)) = Some 1%nat /\
  find_timer 1 (Sample.attempts 1) <> None /\
  ~ (find_timer 1 (step (Sample.attempts 1) (Call_load None)) = None /\
     maxRetries (this (step (Sample.attempts 1) (Call_load None)))
     = MAX_SERVER_RETRIES) /\
  find_timer 1 (step (Sample.attempts 1) (Call_load None)) <> None /\
  maxRetries (this (step (Sample.attempts 1) (Call_load None))) = 2 /\
  trace (run (Sample.attempts 1)
             [Call_load None; Elapse RELOAD_INTERVAL; TimerFires 1])
  = webContents_loadURL "https://a.example.com"
    :: trace (step (Sample.attempts 1) (Call_load None)).
Proof.
  vm_compute. repeat split; try discriminate.
  intros [E _]. discriminate E.
Qed.

Lemma load_forgets_handle_keeps_counter_witness :
  retryLoad (this (step (Sample.attempts 1)
                        (Call_load (Some "https://a.example.com/team")))) = None
  /\ maxRetries (this (step (Sample.attempts 1)
                            (Call_load (Some "https://a.example.com/team")))) = 2.
Proof.
  destruct (load_forgets_handle_keeps_counter
              (Sample.attempts 1) (Some "https://a.example.com/team") Sample.A
              eq_refl eq_refl) as (Hr & Hm & _).
  exact (conj Hr Hm).
Defined.

(** C2 as stated fails: when the retries of the sample view are
    exhausted, after the failed load and four failed retries, the
    counter is below zero; and after the failed load and two failed
    retries, three failures in a row, the status is not [ERROR] and a
    retry is scheduled. *)
Lemma exhausted_counter_is_negative :
  status (this (Sample.attempts 4)) = ERROR /\
  count is_LOAD_FAILED (Sample.attempts 4) = 1%nat /\
  timers (Sample.attempts 4) = [] /\
  ~ (0 <= maxRetries (this (Sample.attempts 4))) /\
  status (this (Sample.attempts 2)) = LOADING /\
  timers (Sample.attempts 2) <> [].
Proof.
  vm_compute. repeat split; try discriminate.
  intros E. by apply E.
Qed.

Lemma retries_exhausted_witness :
  status (this (Sample.attempts 4)) = ERROR /\
  count is_LOAD_FAILED (Sample.attempts 4) = 1%nat /\
  timers (Sample.attempts 4) = [] /\
  maxRetries (this (Sample.attempts 4)) = -1.
Proof.
  destruct (retries_exhausted Sample.fresh None Sample.failing Sample.A
              eq_refl eq_refl eq_refl eq_refl eq_refl ltac:(discriminate))
    as (_ & Hst & Hc & Ht & _ & _ & Hm).
  exact (conj Hst (conj Hc (conj Ht Hm))).
Defined.

(** C3 as stated fails: the sample view has seen the title [Channel],
    in which the asterisk is absent, twice; its flag is still [null],
    and a favicon update whose favicon is in the memo publishes an
    unread state. *)
Lemma title_without_asterisk_leaves_favicons_on :
  ~ (usesAsteriskForUnreads (this Sample.memoized) = Some true /\
     step Sample.memoized (PageFaviconUpdated ["icon"]) = Sample.memoized) /\
  usesAsteriskForUnreads (this Sample.memoized) = None /\
  trace (step Sample.memoized (PageFaviconUpdated ["icon"]))
  = appState_updateUnreads "A" true :: trace Sample.memoized.
Proof.
  vm_compute. repeat split. intros [E _]. discriminate E.
Qed.

Lemma asterisk_seen_is_sticky_witness :
  usesAsteriskForUnreads
    (this (run (step Sample.loaded (PageTitleUpdated "(3) *Channel"))
               [PageTitleUpdated "Channel"; Call_load None])) = Some true /\
  step (run (step Sample.loaded (PageTitleUpdated "(3) *Channel"))
            [PageTitleUpdated "Channel"; Call_load None])
       (PageFaviconUpdated ["icon"])
  = run (step Sample.loaded (PageTitleUpdated "(3) *Channel"))
        [PageTitleUpdated "Channel"; Call_load None].
Proof.
  exact (asterisk_seen_is_sticky Sample.loaded "(3) *Channel"
           [PageTitleUpdated "Channel"; Call_load None] ["icon"]
           eq_refl ltac:(discriminate)).
Defined.

Lemma title_update_publishes_mentions_witness :
  trace (step Sample.loaded (PageTitleUpdated "(3) *Channel"))
  = appState_updateMentions "A" (Js.Num 3) (Some true) :: trace Sample.loaded /\
  trace (step (step Sample.loaded (PageTitleUpdated "(3) *Channel"))
              (PageTitleUpdated "Channel"))
  = appState_updateMentions "A" (Js.Num 0) (Some false)
    :: trace (step Sample.loaded (PageTitleUpdated "(3) *Channel")).
Proof.
  exact (proj1 (title_update_publishes_mentions
                  Sample.loaded Sample.A eq_refl eq_refl)).
Defined.

(** C5 as stated fails: two updates with the same favicon, before any
    result has come back, issue two probes. *)
Lemma same_favicon_twice_probes_twice :
  ~ (count is_probe (run Sample.loaded [PageFaviconUpdated ["icon"];
                                        PageFaviconUpdated ["icon"]])
     <= S (count is_probe Sample.loaded))%nat /\
  count is_probe (run Sample.loaded [PageFaviconUpdated ["icon"];
                                     PageFaviconUpdated ["icon"]])
  = S (S (count is_probe Sample.loaded)).
Proof.
  vm_compute. split; [|reflexivity]. intros E. lia.
Qed.

Lemma favicon_memo_answers_after_result_witness :
  count is_probe
        (run Sample.loaded [PageFaviconUpdated ["icon"];
                            UnreadResult (Js.FavStr "icon") "A" true;
                            PageFaviconUpdated ["icon"]])
  = S (count is_probe Sample.loaded).
Proof.
  destruct (favicon_memo_answers_after_result
              Sample.loaded Sample.A "icon" [] true
              eq_refl eq_refl eq_refl ltac:(discriminate) eq_refl)
    as (_ & _ & _ & _ & Hc & _).
  exact Hc.
Defined.

Lemma unread_result_guard_witness :
  step Sample.loaded (UnreadResult (Js.FavStr "icon") "B" true) = Sample.loaded.
Proof.
  exact (proj1 (proj2 (proj2 (unread_result_guard
                                Sample.loaded (Js.FavStr "icon") "B" true)))
               Sample.A eq_refl ltac:(discriminate)).
Defined.

End OnSample.
End ViewProps.

(** * Properties of the navigation handlers *)

Module NavProps.
Import Nav.

Section Popup.
Context `{Classifier}.

Lemma none_open (l : list BrowserWindow) :
  (forall i win, l !! i = Some win -> closed win = true) ->
  List.filter is_open l = [].
Proof.
  induction l as [|a l IH]; intros Hc; [done|].
  simpl. unfold is_open at 1. rewrite (Hc 0%nat a eq_refl). simpl.
  apply IH. intros i win Hi. by apply (Hc (S i)).
Qed.

Lemma at_most_one_open (l : list BrowserWindow) :
  forall p : option nat,
    (forall i win, l !! i = Some win -> closed win = false -> p = Some i) ->
    (length (List.filter is_open l) <= 1)%nat.
Proof.
  induction l as [|a l IH]; intros p Hp; simpl; [lia|].
  unfold is_open at 1. destruct (closed a) eqn:Ha; simpl.
  - apply (IH (match p with Some (S j) => Some j | _ => None end)).
    intros i win Hi Hw. by rewrite (Hp (S i) win Hi Hw).
  - rewrite none_open; [simpl; lia|].
    intros i win Hi. destruct (closed win) eqn:Hw; [done|].
    pose proof (Hp 0%nat a eq_refl Ha) as E0.
    pose proof (Hp (S i) win Hi Hw) as E1. congruence.
Qed.

Lemma alter_last {A : Type} (f : A -> A) (l : list A) (x : A) :
  alter f (length l) (l ++ [x])%list = (l ++ [f x])%list.
Proof.
  rewrite <- (Nat.add_0_r (length l)). by rewrite alter_app_r.
Qed.

Lemma tracked_open_windows (st : State) :
  tracked st -> (open_windows st <= 1)%nat.
Proof. intros Ht. by apply (at_most_one_open _ (popupWindow st)). Qed.

Lemma tracked_same (st st' : State) :
  windows st' = windows st -> popupWindow st' = popupWindow st ->
  tracked st -> tracked st'.
Proof. intros Ew Ep Ht i win. rewrite Ew, Ep. apply Ht. Qed.

Lemma tracked_update (st : State) (i : nat) (f : BrowserWindow -> BrowserWindow) :
  (forall win, closed (f win) = closed win) ->
  tracked st -> tracked (update_window i f st).
Proof.
  intros Hf Ht j win. unfold update_window. simpl.
  rewrite list_lookup_alter. case_decide as E.
  - subst j. destruct (windows st !! i) as [w0|] eqn:Ei; [|done].
    simpl. intros [= <-]. rewrite Hf. by apply Ht.
  - apply Ht.
Qed.

Lemma no_popup_all_closed (st : State) :
  tracked st -> open_popup st = None ->
  forall i win, windows st !! i = Some win -> closed win = true.
Proof.
  intros Ht Ho i win Hi. destruct (closed win) eqn:Hc; [done|].
  unfold open_popup in Ho. rewrite (Ht i win Hi Hc), Hi, Hc in Ho. done.
Qed.

Lemma tracked_create (st : State) :
  tracked st -> open_popup st = None -> tracked (create_popup st).
Proof.
  intros Ht Ho i win. unfold create_popup. simpl.
  intros Hi Hc. apply lookup_app_Some in Hi as [Hi|[Hlen Hi]].
  - by rewrite (no_popup_all_closed st Ht Ho i win Hi) in Hc.
  - destruct (i - length (windows st))%nat eqn:E; [|by destruct n].
    f_equal. lia.
Qed.

Lemma open_popup_emit (e : Effect) (st : State) :
  open_popup (emit e st) = open_popup st.
Proof. reflexivity. Qed.

Lemma tracked_popup_load (st : State) (url : string) (ua : option string) :
  tracked st -> tracked (state_of (popup_load url ua st)).
Proof.
  intros Ht. unfold popup_load. destruct (popupWindow st) as [i|] eqn:E; [|done].
  simpl. apply (tracked_same (update_window i (set_getURL url) st)); try done.
  by apply tracked_update.
Qed.

Lemma tracked_new_window (st : State) (url : string) :
  tracked st -> tracked (state_of (on_new_window url st)).
Proof.
  intros Ht. unfold on_new_window.
  repeat (case_match; try done);
    try (apply tracked_popup_load);
    try (apply tracked_create; [|by rewrite open_popup_emit]);
    try (by apply (tracked_same st)).
Qed.

Lemma tracked_ready (st : State) (i : nat) :
  tracked st -> tracked (state_of (on_ready_to_show i st)).
Proof.
  intros Ht. unfold on_ready_to_show.
  repeat (case_match; try done); simpl in *.
  - apply (tracked_same (update_window n (set_shown true)
                             (update_window i (set_once_ready false) st)));
      try done.
    apply tracked_update; [done|]. by apply tracked_update.
  - by apply tracked_update.
Qed.

Lemma tracked_closed (st : State) (i : nat) :
  tracked st -> tracked (state_of (on_closed i st)).
Proof.
  intros Ht. unfold on_closed.
  destruct (windows st !! i) as [win|] eqn:Ei; [|done].
  destruct (closed win) eqn:Hc; [done|].
  assert (Hall : forall j w,
             alter (set_closed true) i (windows st) !! j = Some w ->
             closed w = true).
  { intros j w. rewrite list_lookup_alter. case_decide as E.
    - subst j. rewrite Ei. simpl. by intros [= <-].
    - intros Hj. destruct (closed w) eqn:Hw; [done|].
      pose proof (Ht i win Ei Hc). pose proof (Ht j w Hj Hw). congruence. }
  destruct (once_closed win); simpl; intros j w Hj Hw;
    unfold update_window in Hj; simpl in Hj.
  - rewrite list_lookup_alter in Hj. case_decide as E.
    + subst j. rewrite list_lookup_alter_eq, Ei in Hj. simpl in Hj.
      injection Hj as <-. done.
    + by rewrite (Hall j w Hj) in Hw.
  - by rewrite (Hall j w Hj) in Hw.
Qed.

Lemma tracked_step (st : State) (ev : Event) :
  tracked st -> tracked (step st ev).
Proof.
  intros Ht. unfold step. destruct ev; simpl.
  - by apply (tracked_same st).
  - unfold on_will_navigate.
    repeat (case_match; try done); by apply (tracked_same st).
  - unfold on_did_start_navigation.
    repeat (case_match; try done); by apply (tracked_same st).
  - by apply tracked_new_window.
  - by apply tracked_ready.
  - by apply tracked_closed.
  - repeat (case_match; try done). by apply tracked_update.
Qed.

Lemma tracked_run (evs : list Event) :
  forall st, tracked st -> tracked (run st evs).
Proof.
  induction evs as [|ev evs IH]; intros st Ht; [done|].
  apply (IH (step st ev)). by apply tracked_step.
Qed.

Lemma tracked_start (sch : option string) (ts : list View.Server)
      (spell : option bool) :
  tracked (start sch ts spell).
Proof. intros i win Hi. done. Qed.

(** What the handler does with a popup target: nothing new when the
    popup is open at that URL, else it loads the URL into the open
    popup, or into a new one when none is open. *)
Lemma new_window_popup_part (url : string) (st : State) :
  popup_target url st = true ->
  exists ua,
    on_new_window url st =
    let st1 := emit preventDefault st in
    match open_popup st with
    | Some (i, win) =>
        if String.eqb (getURL win) url
        then Returned (emit (log_info ("Popup window already open at provided url: " +:+ url)) st1)
        else popup_load url ua st1
    | None => popup_load url ua (create_popup st1)
    end.
Proof.
  unfold popup_target, on_new_window.
  destruct (parseURL url) as [p|]; [|done].
  intros Hg.
  apply andb_true_iff in Hg as [Hg Hsrv].
  apply andb_true_iff in Hg as [Hg Hproto].
  apply andb_true_iff in Hg as [Hdev Hvalid].
  apply negb_true_iff in Hdev. rewrite Hdev, Hvalid. simpl.
  replace (scheme_protocol (emit preventDefault st)) with (scheme_protocol st)
    by reflexivity.
  assert (Hp : negb (protocol p =? "http:")%string
               && negb (protocol p =? "https:")%string
               && negb (protocol p =? scheme_protocol st)%string = false).
  { rewrite <- !negb_orb. by rewrite Hproto. }
  rewrite Hp.
  destruct (getServer (Some p) (teams st)) as [server|]; [|done].
  apply andb_true_iff in Hsrv as [Hsrv Hpop].
  apply andb_true_iff in Hsrv as [Hsrv Hadmin].
  apply andb_true_iff in Hsrv as [Hsrv Hteam].
  apply andb_true_iff in Hsrv as [Hfiles Hhelp].
  apply negb_true_iff in Hfiles, Hhelp, Hteam, Hadmin.
  rewrite Hfiles, Hhelp, Hteam, Hadmin, Hpop. rewrite open_popup_emit.
  exists (if isManagedResource (View.url server) (Some p)
          then None else popupUserAgent platform).
  cbv zeta.
  destruct (open_popup st) as [[i win]|];
    [destruct (getURL win =? url)%string; [done|]|];
    by destruct (isManagedResource (View.url server) (Some p)).
Qed.

Lemma open_popup_Some (st : State) (i : nat) (win : BrowserWindow) :
  open_popup st = Some (i, win) ->
  popupWindow st = Some i /\ windows st !! i = Some win /\ closed win = false.
Proof.
  unfold open_popup. destruct (popupWindow st) as [j|]; [|done].
  destruct (windows st !! j) as [w|] eqn:E; [|done].
  destruct (closed w) eqn:Hc; [done|]. by intros [= <- <-].
Qed.

(** C6 (amended). In every state the handlers can reach from start-up, at
    most one popup window is open. A request for a plugin or
    managed-resource URL that finds no open popup constructs exactly
    one window, loads the URL into it, and the window is shown when it
    is ready; a request that finds the popup open constructs none: at
    the same URL it changes nothing, at a different URL it loads that
    URL into the same window. *)
Theorem popup_is_single (sch : option string) (ts : list View.Server)
        (spell : option bool) (evs : list Event) (url : string) :
  let st := run (start sch ts spell) evs in
  (open_windows st <= 1)%nat /\
  (popup_target url st = true ->
   let st' := step st (NewWindow url) in
   match open_popup st with
   | None =>
       constructed st' = S (constructed st) /\
       popupWindow st' = Some (constructed st) /\
       open_windows st' = 1%nat /\
       (exists ua, effects st' = popup_loadURL (constructed st) url ua
                                :: new_BrowserWindow (constructed st)
                                :: preventDefault :: effects st) /\
       let st'' := step st' (ReadyToShow (constructed st)) in
       effects st'' = popup_show (constructed st) :: effects st' /\
       constructed st'' = constructed st' /\
       exists win, windows st'' !! constructed st = Some win /\
                   shown win = true /\ closed win = false
   | Some (i, win) =>
       constructed st' = constructed st /\
       popupWindow st' = Some i /\
       (getURL win = url -> windows st' = windows st) /\
       (getURL win <> url ->
        windows st' = alter (set_getURL url) i (windows st) /\
        exists ua, effects st' = popup_loadURL i url ua
                                 :: preventDefault :: effects st)
   end).
Proof.
  intros st.
  assert (Ht : tracked st) by (apply tracked_run, tracked_start).
  split; [by apply tracked_open_windows|].
  intros Hg st'. destruct (new_window_popup_part url st Hg) as [ua E].
  subst st'. unfold step, handle. rewrite E. clear E. cbv zeta.
  destruct (open_popup st) as [[i win]|] eqn:Ho.
  - apply open_popup_Some in Ho as (Hp & Hi & Hc).
    destruct (String.eqb_spec (getURL win) url) as [Eu|Eu]; simpl.
    + repeat split; try done.
    + unfold popup_load. simpl. rewrite Hp. simpl. unfold constructed. simpl.
      rewrite length_alter. repeat split; try done. by exists ua.
  - pose proof (no_popup_all_closed st Ht Ho) as Hall.
    unfold popup_load, create_popup, constructed. simpl.
    rewrite alter_last. simpl.
    split; [rewrite length_app; simpl; lia|].
    split; [done|].
    split.
    { unfold open_windows. simpl. rewrite alter_last, List.filter_app.
      by rewrite (none_open _ Hall). }
    split; [by exists ua|].
    unfold on_ready_to_show, update_window. simpl.
    repeat (progress (rewrite ?alter_last, ?list_lookup_middle by done; simpl)).
    rewrite !length_app. simpl.
    split; [done|]. split; [done|].
    eexists. split; [reflexivity|done].
Qed.

(** C8 (amended). A request that is not for the developer tools, whose
    URL is a valid URI with the protocol [http:], [https:] or that of
    the registered scheme, is handed to the system browser, and the
    windows and the popup variable stay as they are, when its path
    matches the public download pattern or the help pattern, whatever
    server it belongs to, and also when it belongs to no configured
    server. *)
Theorem external_links_open_in_browser (url : string) (st : State)
        (p : ParsedURL) :
  parseURL url = Some p ->
  protocol p <> "devtools:" ->
  isValidURI url = true ->
  protocol p = "http:" \/ protocol p = "https:" \/ protocol p = scheme_protocol st ->
  matches_public_files (pathname p) = true \/ matches_help (pathname p) = true
  \/ getServer (Some p) (teams st) = None ->
  on_new_window url st = Returned (emit (openExternal url) (emit preventDefault st))
  /\ windows (step st (NewWindow url)) = windows st
  /\ popupWindow (step st (NewWindow url)) = popupWindow st.
Proof.
  intros Hp Hdev Hvalid Hproto Hpath.
  assert (E : on_new_window url st
              = Returned (emit (openExternal url) (emit preventDefault st))).
  { unfold on_new_window. rewrite Hp.
    apply String.eqb_neq in Hdev. rewrite Hdev, Hvalid. simpl.
    replace (scheme_protocol (emit preventDefault st)) with (scheme_protocol st)
      by reflexivity.
    assert (Hc : negb (protocol p =? "http:")%string
                 && negb (protocol p =? "https:")%string
                 && negb (protocol p =? scheme_protocol st)%string = false).
    { destruct Hproto as [-> | [-> | ->]]; rewrite ?String.eqb_refl; simpl;
        rewrite ?andb_false_r; reflexivity. }
    rewrite Hc.
    destruct (getServer (Some p) (teams st)) as [server|]; [|done].
    destruct Hpath as [-> | [-> | ?]]; [done| |done].
    by destruct (matches_public_files (pathname p)). }
  unfold step, handle. by rewrite E.
Qed.

(** C9, at the failing input. A URL that [parseURL] cannot parse makes
    the [new-window] handler throw at its first test, before anything
    else; and when the classifier treats it as matching nothing, the
    [will-navigate] handler throws too, at the test for [mailto:]. *)
Theorem unparseable_url_throws (sender : Sender) (url : string) (st : State) :
  parseURL url = None ->
  on_new_window url st = Threw st /\
  (getServer None (teams st) = None ->
   isCustomLoginURL None None (teams st) = false ->
   on_will_navigate sender url st = Threw st).
Proof.
  intros Hp. split.
  - unfold on_new_window. by rewrite Hp.
  - intros Hs Hc. unfold on_will_navigate. by rewrite Hp, Hs, Hc.
Qed.

(** The [null] of an unparseable URL is the only way out of the
    [new-window] handler by exception. *)
Lemma parsed_new_window_returns (url : string) (st : State) (p : ParsedURL) :
  parseURL url = Some p -> exists st', on_new_window url st = Returned st'.
Proof.
  intros Hp. unfold on_new_window. rewrite Hp.
  repeat (case_match; eauto); unfold popup_load;
    try (match goal with
         | E : open_popup _ = Some _ |- _ =>
             apply open_popup_Some in E as (Ep & _ & _); rewrite Ep
         end); simpl; eauto.
Qed.

End Popup.

(** *** The statements on the sample server *)

Section OnSample.
#[local] Existing Instance Sample.classifier.

(** C6 as stated fails: with the popup open at one plugin page, a
    request for another plugin page constructs no second window; the
    one window of the first request loads the new URL. *)
Lemma other_url_loads_into_same_window :
  popup_target Sample.other_plugin_page Sample.popup_shown = true /\
  ~ (constructed (step Sample.popup_shown (NewWindow Sample.other_plugin_page))
     = S (constructed Sample.popup_shown)) /\
  constructed Sample.popup_shown = 1%nat /\
  constructed (step Sample.popup_shown (NewWindow Sample.other_plugin_page)) = 1%nat /\
  popupWindow (step Sample.popup_shown (NewWindow Sample.other_plugin_page))
  = popupWindow Sample.popup_shown /\
  effects (step Sample.popup_shown (NewWindow Sample.other_plugin_page))
  = popup_loadURL 0 Sample.other_plugin_page (Some nixUA)
    :: preventDefault :: effects Sample.popup_shown.
Proof.
  vm_compute. repeat split. intros E. discriminate E.
Qed.

Lemma popup_is_single_witness :
  constructed (step Sample.nav0 (NewWindow Sample.plugin_page)) = 1%nat /\
  popupWindow (step Sample.nav0 (NewWindow Sample.plugin_page)) = Some 0%nat /\
  open_windows (step Sample.nav0 (NewWindow Sample.plugin_page)) = 1%nat.
Proof.
  assert (Hg : popup_target Sample.plugin_page
                 (run (start (Some "mattermost") [Sample.A] None) []) = true)
    by (vm_compute; reflexivity).
  destruct (proj2 (popup_is_single (Some "mattermost") [Sample.A] None []
                                   Sample.plugin_page) Hg)
    as (Hc & Hp & Ho & _).
  exact (conj Hc (conj Hp Ho)).
Defined.

(** C8 as stated fails: a request whose path matches the help pattern
    but whose protocol is [ftp:], and a [mailto:] request, which belongs
    to no server, go to the protocol dialog, not to the browser. *)
Lemma custom_protocol_goes_to_dialog :
  (exists p, parseURL Sample.ftp_help_link = Some p /\
             matches_help (pathname p) = true) /\
  (exists p, parseURL Sample.mail_link = Some p /\
             getServer (Some p) (teams Sample.nav0) = None) /\
  ~ In (openExternal Sample.ftp_help_link)
       (effects (step Sample.nav0 (NewWindow Sample.ftp_help_link))) /\
  ~ In (openExternal Sample.mail_link)
       (effects (step Sample.nav0 (NewWindow Sample.mail_link))) /\
  effects (step Sample.nav0 (NewWindow Sample.ftp_help_link))
  = [protocol_dialog "ftp:" Sample.ftp_help_link; preventDefault] /\
  effects (step Sample.nav0 (NewWindow Sample.mail_link))
  = [protocol_dialog "mailto:" Sample.mail_link; preventDefault].
Proof.
  split; [eexists; split; reflexivity|].
  split; [eexists; split; reflexivity|].
  vm_compute. repeat split; intros [E|[E|[]]]; discriminate E.
Qed.

Lemma external_links_open_in_browser_witness :
  on_new_window Sample.download_link Sample.nav0
  = Returned (emit (openExternal Sample.download_link)
                   (emit preventDefault Sample.nav0))
  /\ windows (step Sample.nav0 (NewWindow Sample.download_link))
     = windows Sample.nav0
  /\ popupWindow (step Sample.nav0 (NewWindow Sample.download_link))
     = popupWindow Sample.nav0.
Proof.
  exact (external_links_open_in_browser
           Sample.download_link Sample.nav0
           {| href := Sample.download_link; protocol := "https:";
              pathname := "/api/v4/public/files/x"; path := None |}
           eq_refl ltac:(discriminate) eq_refl
           (or_intror (or_introl eq_refl)) (or_introl eq_refl)).
Defined.

Lemma unparseable_url_throws_witness :
  on_new_window "not a url" Sample.surface = Threw Sample.surface /\
  on_will_navigate {| id := 1; owner := None |} "not a url" Sample.surface
  = Threw Sample.surface.
Proof.
  assert (Hp : parseURL "not a url" = None) by (vm_compute; reflexivity).
  destruct (unparseable_url_throws {| id := 1; owner := None |} "not a url"
                                   Sample.surface Hp) as [Hn Hw].
  exact (conj Hn (Hw eq_refl eq_refl)).
Defined.

End OnSample.
End NavProps.
